(** * trlx: the PPO model of [trlx/model/accelerate_ppo_model.py]

    A shallow embedding of the KL controllers, of [AcceleratePPOModel.loss]
    (the GAE recurrence, the clipped value loss and the clipped policy
    surrogate) and of the training loop [AcceleratePPOModel.learn], followed
    by the properties of the specification that were checked against them.

    Numbers.  The Python code computes in IEEE floating point.  The embedding
    idealises every float as a real number ([R]): rounding, overflow and
    underflow are not modelled.  The two places where the float computation
    leaves the finite numbers on well-typed input (the mean of an empty
    tensor, a numpy division by zero) end the modelled run with the outcome
    [NonFinite].  A property of one call holds of the float computation up
    to the rounding of its result.  The coefficient of the Adaptive
    controller is multiplied at every [update], so over many calls a float
    coefficient can reach exactly 0.0 or inf where the real one stays
    positive and finite; the properties of that value are therefore
    stated call by call, and the one stated of a whole run of [learn], that
    the coefficient does not become negative, is one that 0.0 and inf keep.
    Counters ([iter_count], [epoch], the integer configuration) are [Z]. *)

From Stdlib Require Import List ZArith Reals Lra Lia Bool.
Import ListNotations.

Open Scope R_scope.

(* ------------------------------------------------------------------ *)
(** ** Outcomes of a Python call *)

(** The exceptions the modelled code can raise, and [NonFinite], which is
    not a Python exception: it marks a float result that is inf or nan and
    so has no image in [R]; the model does not follow the run further. *)
Inductive error : Type :=
| IndexError
| RuntimeError
| ZeroDivisionError
| AttributeError
| NonFinite.

Inductive result (A : Type) : Type :=
| Ok (a : A)
| Err (e : error).

Arguments Ok {A} a.
Arguments Err {A} e.

Definition bind {A B : Type} (c : result A) (k : A -> result B) : result B :=
  match c with
  | Ok a => k a
  | Err e => Err e
  end.

Declare Scope result_scope.
Delimit Scope result_scope with result.
Notation "x <- c ;; k" := (bind c (fun x => k))
  (at level 61, c at next level, right associativity) : result_scope.
Notation "' p <- c ;; k" := (bind c (fun x => let p := x in k))
  (at level 61, p pattern, c at next level, right associativity) : result_scope.
Open Scope result_scope.

Fixpoint mapM {A B : Type} (f : A -> result B) (l : list A) : result (list B) :=
  match l with
  | [] => Ok []
  | a :: l' => b <- f a ;; bs <- mapM f l' ;; Ok (b :: bs)
  end.

(* ------------------------------------------------------------------ *)
(** ** Tensors *)

(** A 1-D tensor is a list of reals.  A 2-D tensor of shape [B, T] is the
    list of its [B] rows (batch-major, as the code indexes it).  A tensor
    with no row does not record its number of columns; a data loader never
    yields such a batch. *)
Definition tensor1 := list R.
Definition tensor2 := list tensor1.

(** [t.shape[1]] *)
Definition shape1 {A : Type} (m : list (list A)) : nat :=
  match m with
  | [] => 0%nat
  | r :: _ => length r
  end.

(** [m] has [B] rows of [T] entries each. *)
Definition has_shape {A : Type} (B T : nat) (m : list (list A)) : Prop :=
  length m = B /\ Forall (fun r => length r = T) m.

(** [m[:, t]] for [0 <= t]; an index past the row raises. *)
Definition col (m : tensor2) (t : nat) : result tensor1 :=
  mapM (fun r => match nth_error r t with
                 | Some x => Ok x
                 | None => Err IndexError
                 end) m.

(** Elementwise binary operation with torch's broadcasting along one
    dimension: equal sizes combine pointwise, a size-1 operand is repeated,
    any other pair of sizes raises. *)
Definition bcast {A B C : Type} (f : A -> B -> result C)
  (u : list A) (v : list B) : result (list C) :=
  if Nat.eqb (length u) (length v)
  then mapM (fun p => f (fst p) (snd p)) (combine u v)
  else match u, v with
       | [x], _ => mapM (f x) v
       | _, [y] => mapM (fun x => f x y) u
       | _, _ => Err RuntimeError
       end.

Definition bcast1 (f : R -> R -> R) (u v : tensor1) : result tensor1 :=
  bcast (fun x y => Ok (f x y)) u v.

Definition bcast2 (f : R -> R -> R) (m n : tensor2) : result tensor2 :=
  bcast (bcast1 f) m n.

(** A Python value that is either a float or a 1-D tensor: [lastgaelam]
    starts as the number [0] and [nextvalues] is the number [0.0] at the
    last step. *)
Inductive bval : Type :=
| Scalar (x : R)
| Vec (v : tensor1).

(** [c * b] for a float [c] *)
Definition bscale (c : R) (b : bval) : bval :=
  match b with
  | Scalar x => Scalar (c * x)
  | Vec v => Vec (map (Rmult c) v)
  end.

(** [u (op) b] for a 1-D tensor [u] *)
Definition vop (f : R -> R -> R) (u : tensor1) (b : bval) : result tensor1 :=
  match b with
  | Scalar x => Ok (map (fun a => f a x) u)
  | Vec v => bcast1 f u v
  end.

(** [torch.stack] of 1-D tensors along a new first dimension: the list must
    be non-empty and all tensors of one size. *)
Definition stack (l : list tensor1) : result tensor2 :=
  match l with
  | [] => Err RuntimeError
  | r :: l' =>
      if forallb (fun r' => Nat.eqb (length r') (length r)) l'
      then Ok l
      else Err RuntimeError
  end.

(** [m.transpose(0, 1)] of a rectangular 2-D tensor *)
Definition transpose (m : tensor2) : tensor2 :=
  map (fun j => map (fun r => nth j r 0) m) (seq 0 (shape1 m)).

Definition rsum (l : list R) : R := fold_right Rplus 0 l.

(** [torch.mean] of a 1-D tensor; nan on an empty one. *)
Definition mean1 (v : tensor1) : result R :=
  match v with
  | [] => Err NonFinite
  | _ => Ok (rsum v / INR (length v))
  end.

(** [torch.mean] of a 2-D tensor: over all its elements. *)
Definition mean (m : tensor2) : result R := mean1 (concat m).

(* ------------------------------------------------------------------ *)
(** ** Configuration *)

(** [config.method] and [config.train], the fields this file reads.
    [target] is [None] when the configuration leaves it out. *)
Record Config : Type := {
  gamma : R;
  lam : R;
  cliprange : R;
  cliprange_value : R;
  vf_coef : R;
  init_kl_coef : R;
  target : option R;
  horizon : R;
  ppo_epochs : Z;
  num_rollouts : Z;
  batch_size : Z;
  eval_interval : Z;
  total_steps : Z;
  epochs : Z
}.

(* ------------------------------------------------------------------ *)
(** ** KL controllers *)

Module AdaptiveKLController.

Record t : Type := { value : R; target : R; horizon : R }.

(** [__init__]: three assignments, no check. *)
Definition init (init_kl_coef target horizon : R) : result t :=
  Ok {| value := init_kl_coef; target := target; horizon := horizon |}.

(** [np.clip(x, lo, hi)]: [minimum(maximum(x, lo), hi)] *)
Definition np_clip (x lo hi : R) : R := Rmin (Rmax x lo) hi.

(** [update].  [current / target] divides two Python floats and raises
    on a zero [target]; the later division by [horizon] is a numpy one,
    which yields inf or nan on zero instead of raising.  The product
    [value * mult] is a real here: a float product that underflows to 0.0
    or overflows to inf is not modelled. *)
Definition update (self : t) (current n_steps : R) : result t :=
  if Req_dec_T (target self) 0 then Err ZeroDivisionError
  else
    let proportional_error :=
      np_clip (current / target self - 1) (-0.2) 0.2 in
    if Req_dec_T (horizon self) 0 then Err NonFinite
    else
      let mult := 1 + proportional_error * n_steps / horizon self in
      Ok {| value := value self * mult;
            target := target self;
            horizon := horizon self |}.

End AdaptiveKLController.

Module FixedKLController.

Record t : Type := { value : R }.

Definition init (kl_coef : R) : result t := Ok {| value := kl_coef |}.

(** [update]: [pass] *)
Definition update (self : t) (current n_steps : R) : result t := Ok self.

End FixedKLController.

(** [self.kl_ctl]: one of the two controller classes *)
Inductive KLController : Type :=
| Adaptive (c : AdaptiveKLController.t)
| Fixed (c : FixedKLController.t).

Definition kl_value (k : KLController) : R :=
  match k with
  | Adaptive c => AdaptiveKLController.value c
  | Fixed c => FixedKLController.value c
  end.

Definition kl_update (k : KLController) (current n_steps : R)
  : result KLController :=
  match k with
  | Adaptive c =>
      c' <- AdaptiveKLController.update c current n_steps ;; Ok (Adaptive c')
  | Fixed c =>
      c' <- FixedKLController.update c current n_steps ;; Ok (Fixed c')
  end.

(** The controller chosen by [AcceleratePPOModel.__init__] *)
Definition make_kl_ctl (config : Config) : result KLController :=
  match target config with
  | Some tg =>
      c <- AdaptiveKLController.init (init_kl_coef config) tg (horizon config) ;;
      Ok (Adaptive c)
  | None =>
      c <- FixedKLController.init (init_kl_coef config) ;; Ok (Fixed c)
  end.

(* ------------------------------------------------------------------ *)
(** ** [AcceleratePPOModel.loss] *)

Fixpoint foldM {A S : Type} (f : S -> A -> result S) (l : list A) (s : S)
  : result S :=
  match l with
  | [] => Ok s
  | a :: l' => s' <- f s a ;; foldM f l' s'
  end.

(** [torch.clamp(x, lo, hi)] on one element: [min(max(x, lo), hi)], which
    is [hi] whenever [lo > hi]. *)
Definition clamp (x lo hi : R) : R := Rmin (Rmax x lo) hi.

(** Modelled from the spec: [trlx.utils.modeling.clip_by_value] is not in
    this file; it clips [x] elementwise to the interval from [tensor_min]
    to [tensor_max]. *)
Definition clip_by_value (x tensor_min tensor_max : tensor2) : result tensor2 :=
  m <- bcast2 Rmin x tensor_max ;; bcast2 Rmax m tensor_min.

(** [torch.cat((q, r), dim=1)] *)
Definition cat1 {A : Type} (q r : list (list A)) : result (list (list A)) :=
  if Nat.eqb (length q) (length r)
  then Ok (map (fun p => fst p ++ snd p) (combine q r))
  else Err RuntimeError.

(** [l[-n:]] for [0 <= n] *)
Definition last_n {A : Type} (n : nat) (l : list A) : list A :=
  if Nat.eqb n 0 then l else skipn (length l - n) l.

(** [l[-n-1:-1]] for [0 <= n] *)
Definition window_before_last {A : Type} (n : nat) (l : list A) : list A :=
  skipn (length l - (n + 1)) (firstn (length l - 1) l).

Record LossOut : Type := {
  model_loss : R;
  out_pg_loss : R;
  out_vf_loss : R;
  out_mean_kl : R     (* the value assigned to [self.mean_kl] *)
}.

Section Loss.

Variable config : Config.

(** [trlx.utils.modeling.whiten], not in this file. *)
Variable whiten : tensor2 -> tensor2.

(** The forward pass as the loss uses it: for the token rows it returns
    [logprobs_from_logits(logits[:, :-1, :], all_tokens[:, 1:])] and
    [vpred], where [logits, _, vpred = self.model(all_tokens)]. *)
Variable policy : list (list Z) -> tensor2 * tensor2.

(** The body of the loop over [t] (lines 72 to 81). *)
Definition gae_step (all_values all_rewards : tensor2) (gen_len : nat)
  (st : bval * list tensor1) (t : nat) : result (bval * list tensor1) :=
  let '(lastgaelam, advantages_reversed) := st in
  nextvalues <- (if Nat.ltb t (gen_len - 1)
                 then v <- col all_values (t + 1) ;; Ok (Vec v)
                 else Ok (Scalar 0)) ;;
  r <- col all_rewards t ;;
  x <- vop Rplus r (bscale (gamma config) nextvalues) ;;
  v <- col all_values t ;;
  delta <- bcast1 Rminus x v ;;
  lastgaelam' <-
    vop Rplus delta (bscale (gamma config * lam config) lastgaelam) ;;
  Ok (Vec lastgaelam', advantages_reversed ++ [lastgaelam']).

(** Lines 68 to 84: the advantages before whitening, and the returns. *)
Definition gae (response_tensors : list (list Z))
  (all_values all_rewards : tensor2) : result (tensor2 * tensor2) :=
  let gen_len := shape1 response_tensors in
  st <- foldM (gae_step all_values all_rewards gen_len)
              (rev (seq 0 gen_len)) (Scalar 0, []) ;;
  stacked <- stack (rev (snd st)) ;;
  let advantages := transpose stacked in
  returns <- bcast2 Rplus advantages all_values ;;
  Ok (advantages, returns).

(** Lines 88 to 93: [logprob] and [vpred] on the generated part. *)
Definition forward (query_tensors response_tensors : list (list Z))
  : result (tensor2 * tensor2) :=
  let gen_len := shape1 response_tensors in
  all_tokens <- cat1 query_tensors response_tensors ;;
  let '(logprob, vpred) := policy all_tokens in
  Ok (map (last_n gen_len) logprob, map (window_before_last gen_len) vpred).

(** Lines 95 to 103. *)
Definition value_loss (vpred all_values returns : tensor2) : result R :=
  vpredclipped <-
    clip_by_value vpred
      (map (map (fun v => v - cliprange_value config)) all_values)
      (map (map (fun v => v + cliprange_value config)) all_values) ;;
  d1 <- bcast2 Rminus vpred returns ;;
  let vf_losses1 := map (map (fun x => x ^ 2)) d1 in
  d2 <- bcast2 Rminus vpredclipped returns ;;
  let vf_losses2 := map (map (fun x => x ^ 2)) d2 in
  worst <- bcast2 Rmax vf_losses1 vf_losses2 ;;
  m <- mean worst ;;
  Ok (0.5 * m).

(** Lines 108 to 117, from [kl] on. *)
Definition policy_loss (advantages kl : tensor2) : result R :=
  let ratio := map (map exp) kl in
  let neg_advantages := map (map Ropp) advantages in
  pg_losses <- bcast2 Rmult neg_advantages ratio ;;
  pg_losses2 <-
    bcast2 Rmult neg_advantages
      (map (map (fun x => clamp x (1 - cliprange config)
                                  (1 + cliprange config))) ratio) ;;
  worst <- bcast2 Rmax pg_losses pg_losses2 ;;
  mean worst.

(** Lines 68 to 107: the value assigned to [self.mean_kl].  The assignment
    is made before the policy loss is computed, so it stays when a later
    line of [loss] raises. *)
Definition recorded_mean_kl (query_tensors response_tensors : list (list Z))
  (all_logprobs all_values all_rewards : tensor2) : result R :=
  '(advantages, returns) <- gae response_tensors all_values all_rewards ;;
  '(logprob, vpred) <- forward query_tensors response_tensors ;;
  vf_loss <- value_loss vpred all_values returns ;;
  kl <- bcast2 Rminus logprob all_logprobs ;;
  mean1 (map rsum kl).

Definition loss (query_tensors response_tensors : list (list Z))
  (all_logprobs all_values all_rewards : tensor2) : result LossOut :=
  '(advantages, returns) <- gae response_tensors all_values all_rewards ;;
  let advantages := whiten advantages in
  '(logprob, vpred) <- forward query_tensors response_tensors ;;
  vf_loss <- value_loss vpred all_values returns ;;
  kl <- bcast2 Rminus logprob all_logprobs ;;
  mean_kl <- mean1 (map rsum kl) ;;
  pg_loss <- policy_loss advantages kl ;;
  Ok {| model_loss := pg_loss + vf_coef config * vf_loss;
        out_pg_loss := pg_loss;
        out_vf_loss := vf_loss;
        out_mean_kl := mean_kl |}.

End Loss.

(* ------------------------------------------------------------------ *)
(** ** [AcceleratePPOModel]: state, callbacks and [learn] *)

(** A collated mini-batch of the rollout store. *)
Record Batch : Type := {
  query_tensors : list (list Z);
  response_tensors : list (list Z);
  logprobs : tensor2;
  values : tensor2;
  rewards : tensor2
}.

(** The dictionary assigned to [self.logs] by every pass. *)
Record Logs : Type := {
  log_loss : R;
  log_pg_loss : R;
  log_vf_loss : R;
  log_batch : Batch;
  log_rewards : tensor2
}.

(** The calls [learn] makes on its collaborators, in the order made. *)
Inductive event : Type :=
| EvPrintStart
| EvLoss (b : Batch)
| EvZeroGrad
| EvBackward (loss : R)
| EvOptStep
| EvSchedulerStep
| EvKLUpdate (current n_steps : R)
| EvEval (step : Z) (pg_loss vf_loss kl_coef : R)
| EvWaitForEveryone
| EvClearHistory
| EvMakeExperience (num_rollouts step : Z).

Definition is_kl_update (e : event) : bool :=
  match e with
  | EvKLUpdate _ _ => true
  | _ => false
  end.

(** The calls made inside a pass. *)
Definition is_pass_event (e : event) : bool :=
  match e with
  | EvLoss _ | EvZeroGrad | EvBackward _ | EvOptStep | EvSchedulerStep => true
  | _ => false
  end.

(** Events that are neither a controller update nor part of a pass. *)
Definition no_update_no_pass (evs : list event) : bool :=
  forallb (fun e => negb (is_kl_update e || is_pass_event e)) evs.

Section Learn.

Variable config : Config.
Variable whiten : tensor2 -> tensor2.

(** The trainable state: weights, optimizer and scheduler. *)
Variable Params : Type.

(** [self.model] at given weights, see [policy] in [loss]. *)
Variable policy_of : Params -> list (list Z) -> tensor2 * tensor2.

(** The weights after [zero_grad], [backward(loss)], [opt.step()] and
    [scheduler.step()] on a pass over the batch. *)
Variable optimise : Params -> Batch -> Params.

(** [self.accelerator.is_main_process] *)
Variable is_main_process : bool.

(** The mini-batches the loader yields once
    [self.orch.make_experience(num_rollouts, iter_count)] has refilled
    the store, in the order it yields them. *)
Variable make_experience : Params -> R -> Z -> Z -> list Batch.

(** The attributes of [self] that [learn] and the callbacks touch.  An
    attribute that has not been assigned yet is [None].  [store] holds
    the mini-batches the loader yields in the current epoch. *)
Record Model : Type := {
  params : Params;
  kl_ctl : KLController;
  store : list Batch;
  iter_count : Z;
  epoch : Z;
  mean_kl : option R;
  logs : option Logs;
  trace : list event
}.

Definition emit (evs : list event) (s : Model) : Model :=
  {| params := params s; kl_ctl := kl_ctl s; store := store s;
     iter_count := iter_count s; epoch := epoch s;
     mean_kl := mean_kl s; logs := logs s; trace := trace s ++ evs |}.

Definition set_params (p : Params) (s : Model) : Model :=
  {| params := p; kl_ctl := kl_ctl s; store := store s;
     iter_count := iter_count s; epoch := epoch s;
     mean_kl := mean_kl s; logs := logs s; trace := trace s |}.

Definition set_kl_ctl (k : KLController) (s : Model) : Model :=
  {| params := params s; kl_ctl := k; store := store s;
     iter_count := iter_count s; epoch := epoch s;
     mean_kl := mean_kl s; logs := logs s; trace := trace s |}.

Definition set_store (st : list Batch) (s : Model) : Model :=
  {| params := params s; kl_ctl := kl_ctl s; store := st;
     iter_count := iter_count s; epoch := epoch s;
     mean_kl := mean_kl s; logs := logs s; trace := trace s |}.

Definition set_iter_count (n : Z) (s : Model) : Model :=
  {| params := params s; kl_ctl := kl_ctl s; store := store s;
     iter_count := n; epoch := epoch s;
     mean_kl := mean_kl s; logs := logs s; trace := trace s |}.

Definition set_epoch (n : Z) (s : Model) : Model :=
  {| params := params s; kl_ctl := kl_ctl s; store := store s;
     iter_count := iter_count s; epoch := n;
     mean_kl := mean_kl s; logs := logs s; trace := trace s |}.

Definition set_mean_kl (x : R) (s : Model) : Model :=
  {| params := params s; kl_ctl := kl_ctl s; store := store s;
     iter_count := iter_count s; epoch := epoch s;
     mean_kl := Some x; logs := logs s; trace := trace s |}.

Definition set_logs (l : Logs) (s : Model) : Model :=
  {| params := params s; kl_ctl := kl_ctl s; store := store s;
     iter_count := iter_count s; epoch := epoch s;
     mean_kl := mean_kl s; logs := Some l; trace := trace s |}.

(** How a piece of [learn] ends: normally, by an exception, or, for the
    [while] loop, still running when the fuel of the model is spent.
    Each carries the state reached. *)
Inductive outcome : Type :=
| Done (s : Model)
| Raised (e : error) (s : Model)
| OutOfFuel (s : Model).

Definition and_then (o : outcome) (k : Model -> outcome) : outcome :=
  match o with
  | Done s => k s
  | Raised e s => Raised e s
  | OutOfFuel s => OutOfFuel s
  end.

(** [AcceleratePPOModel.__init__], as far as this file shows it: the
    controller is chosen; [iter_count], [epoch], [mean_kl] and [logs] are
    not assigned (the two counters are set by [learn]). *)
Definition init_model (p : Params) (rollouts : list Batch) : result Model :=
  k <- make_kl_ctl config ;;
  Ok {| params := p; kl_ctl := k; store := rollouts;
        iter_count := 0; epoch := 0;
        mean_kl := None; logs := None; trace := [] |}.

(** [self.loss(...)] on a batch at weights [p]. *)
Definition batch_loss (batch : Batch) (p : Params) : result LossOut :=
  loss config whiten (policy_of p)
    (query_tensors batch) (response_tensors batch)
    (logprobs batch) (values batch) (rewards batch).

(** What [self.loss(...)] on a batch at weights [p] assigns to
    [self.mean_kl], when it gets that far. *)
Definition batch_mean_kl (batch : Batch) (p : Params) : result R :=
  recorded_mean_kl config (policy_of p)
    (query_tensors batch) (response_tensors batch)
    (logprobs batch) (values batch) (rewards batch).

(** The dictionary a pass assigns to [self.logs]. *)
Definition logs_of (batch : Batch) (out : LossOut) : Logs :=
  {| log_loss := model_loss out;
     log_pg_loss := out_pg_loss out;
     log_vf_loss := out_vf_loss out;
     log_batch := batch;
     log_rewards := rewards batch |}.

(** The calls of one pass whose loss returned [out]. *)
Definition pass_events (batch : Batch) (out : LossOut) : list event :=
  [EvLoss batch; EvZeroGrad; EvBackward (model_loss out);
   EvOptStep; EvSchedulerStep].

(** One turn of [for _ in range(ppo_epochs)] (lines 187 to 203).  When
    [loss] raises after line 107 the exception leaves [self.mean_kl]
    assigned; [self.logs] and the rest are as before the call. *)
Definition optimization_pass (batch : Batch) (s : Model) : outcome :=
  let s := emit [EvLoss batch] s in
  match batch_loss batch (params s) with
  | Err e =>
      match batch_mean_kl batch (params s) with
      | Ok kl => Raised e (set_mean_kl kl s)
      | Err _ => Raised e s
      end
  | Ok out =>
      let s := set_mean_kl (out_mean_kl out) s in
      let s := set_logs (logs_of batch out) s in
      let s := emit [EvZeroGrad; EvBackward (model_loss out);
                     EvOptStep; EvSchedulerStep] s in
      let s := set_params (optimise (params s) batch) s in
      Done (set_iter_count (iter_count s + 1) s)
  end.

(** [n] turns of the loop over the same batch. *)
Fixpoint passes (n : nat) (batch : Batch) (s : Model) : outcome :=
  match n with
  | O => Done s
  | S n' => and_then (optimization_pass batch s) (passes n' batch)
  end.

(** [post_backward_callback] *)
Definition post_backward_callback (s : Model) : outcome :=
  match logs s with
  | None => Raised AttributeError s
  | Some lg =>
      match mean_kl s with
      | None => Raised AttributeError s
      | Some kl =>
          let n_steps := IZR (batch_size config) in
          let s := emit [EvKLUpdate kl n_steps] s in
          match kl_update (kl_ctl s) kl n_steps with
          | Err e => Raised e s
          | Ok k =>
              let s := set_kl_ctl k s in
              if is_main_process then
                if Z.eqb (eval_interval config) 0
                then Raised ZeroDivisionError s
                else if Z.eqb (iter_count s mod eval_interval config) 0
                        || Z.leb (iter_count s) (ppo_epochs config)
                then Done (emit [EvEval (iter_count s) (log_pg_loss lg)
                                   (log_vf_loss lg) (kl_value k)] s)
                else Done s
              else Done s
          end
      end
  end.

(** The body of [for batch in rollout_loader] (lines 180 to 206). *)
Definition train_batch (batch : Batch) (s : Model) : outcome :=
  and_then (passes (Z.to_nat (ppo_epochs config)) batch s) (fun s =>
  and_then (post_backward_callback s) (fun s =>
  Done (emit [EvWaitForEveryone] s))).

Fixpoint for_each_batch (batches : list Batch) (s : Model) : outcome :=
  match batches with
  | [] => Done s
  | b :: rest => and_then (train_batch b s) (for_each_batch rest)
  end.

(** [post_epoch_callback] *)
Definition post_epoch_callback (s : Model) : outcome :=
  let s := set_epoch (epoch s + 1) s in
  let s := emit [EvClearHistory] s in
  let s := emit [EvMakeExperience (num_rollouts config) (iter_count s)] s in
  Done (set_store (make_experience (params s) (kl_value (kl_ctl s))
                     (num_rollouts config) (iter_count s)) s).

(** The body of the [while] loop (lines 178 to 209). *)
Definition train_epoch (s : Model) : outcome :=
  and_then (for_each_batch (store s) s) (fun s =>
  and_then (post_epoch_callback s) (fun s =>
  Done (emit [EvWaitForEveryone] s))).

(** The condition of the [while] loop. *)
Definition keep_going (s : Model) : bool :=
  Z.ltb (iter_count s) (total_steps config)
  || Z.leb (epoch s) (epochs config).

Fixpoint learn_loop (fuel : nat) (s : Model) : outcome :=
  if keep_going s then
    match fuel with
    | O => OutOfFuel s
    | S fuel' => and_then (train_epoch s) (learn_loop fuel')
    end
  else Done s.

(** The state an outcome carries. *)
Definition final (o : outcome) : Model :=
  match o with
  | Done s => s
  | Raised _ s => s
  | OutOfFuel s => s
  end.

(** The weights after [n] passes over [batch] from weights [p]. *)
Fixpoint params_after (batch : Batch) (n : nat) (p : Params) : Params :=
  match n with
  | O => p
  | S n' => params_after batch n' (optimise p batch)
  end.

(** [learn]; [fuel] bounds the number of epochs the model follows. *)
Definition learn (fuel : nat) (s : Model) : outcome :=
  let s := emit [EvPrintStart] s in
  let s := set_iter_count 0 s in
  let s := set_epoch 0 s in
  learn_loop fuel s.

End Learn.

Arguments params {Params} _.
Arguments kl_ctl {Params} _.
Arguments store {Params} _.
Arguments iter_count {Params} _.
Arguments epoch {Params} _.
Arguments mean_kl {Params} _.
Arguments logs {Params} _.
Arguments trace {Params} _.
Arguments emit {Params} _ _.
Arguments set_params {Params} _ _.
Arguments set_kl_ctl {Params} _ _.
Arguments set_store {Params} _ _.
Arguments set_iter_count {Params} _ _.
Arguments set_epoch {Params} _ _.
Arguments set_mean_kl {Params} _ _.
Arguments set_logs {Params} _ _.
Arguments Done {Params} _.
Arguments Raised {Params} _ _.
Arguments OutOfFuel {Params} _.
Arguments and_then {Params} _ _.
Arguments final {Params} _.
Arguments params_after {Params} _ _ _ _.

(* ------------------------------------------------------------------ *)
(** ** The formulas of the specification *)

(** Entry [t] of row [b]. *)
Definition el (m : tensor2) (b t : nat) : R := nth t (nth b m []) 0.

(** The list [f 0; ...; f (n-1)]. *)
Definition tab {A : Type} (n : nat) (f : nat -> A) : list A := map f (seq 0 n).

(** The 2-D tensor of shape [B, T] with entries [f b t]. *)
Definition tab2 (B T : nat) (f : nat -> nat -> R) : tensor2 :=
  tab B (fun b => tab T (f b)).

(** The mean of [f b t] over [b < B] and [t < T]. *)
Definition mean_over (B T : nat) (f : nat -> nat -> R) : R :=
  rsum (tab B (fun b => rsum (tab T (f b)))) / INR (B * T).

(** The backward recurrence of the specification on one trajectory, values
    [V] and rewards [Rw]: at each step [next_value] is the next value or 0
    at the end, [lastgae] is the advantage of the next step or 0 at the
    end. *)
Fixpoint spec_advantages (g l : R) (V Rw : list R) : list R :=
  match V, Rw with
  | v :: V', r :: Rw' =>
      let rest := spec_advantages g l V' Rw' in
      let next_value := hd 0 V' in
      let lastgae := hd 0 rest in
      let delta := r + g * next_value - v in
      (delta + g * l * lastgae) :: rest
  | _, _ => []
  end.

(** [max(loss1, loss2)] of the specification at one position. *)
Definition spec_policy_term (c a new_logprob old_logprob : R) : R :=
  let ratio := exp (new_logprob - old_logprob) in
  let loss1 := - a * ratio in
  let loss2 := - a * clamp ratio (1 - c) (1 + c) in
  Rmax loss1 loss2.

Definition spec_policy_loss (c : R) (B T : nat)
  (advantages new_logprob old_logprob : tensor2) : R :=
  mean_over B T (fun b t =>
    spec_policy_term c (el advantages b t) (el new_logprob b t)
      (el old_logprob b t)).

(** [new_value] clipped to [old_value - c, old_value + c]. *)
Definition spec_clipped_value (c new_value old_value : R) : R :=
  Rmax (Rmin new_value (old_value + c)) (old_value - c).

Definition spec_value_term (c new_value old_value ret : R) : R :=
  Rmax ((new_value - ret) ^ 2)
       ((spec_clipped_value c new_value old_value - ret) ^ 2).

Definition spec_value_loss (c : R) (B T : nat)
  (new_value old_value returns : tensor2) : R :=
  0.5 * mean_over B T (fun b t =>
    spec_value_term c (el new_value b t) (el old_value b t) (el returns b t)).

(** A batch whose tensors all have [B >= 1] rows and [T >= 1] columns
    ([query_tensors] may have any number of columns). *)
Definition batch_shaped (B T : nat) (q r : list (list Z))
  (all_logprobs all_values all_rewards : tensor2) : Prop :=
  (1 <= B)%nat /\ (1 <= T)%nat /\ length q = B /\ has_shape B T r /\
  has_shape B T all_logprobs /\ has_shape B T all_values /\
  has_shape B T all_rewards.

(** The state of the GAE loop before the turn for position [k - 1], when
    the advantages of the positions from [k] on are [a b t]: [lastgaelam]
    and [advantages_reversed]. *)
Definition gae_state (B T : nat) (a : nat -> nat -> R) (k : nat)
  : bval * list tensor1 :=
  (if Nat.eqb k T then Scalar 0 else Vec (tab B (fun b => a b k)),
   map (fun t => tab B (fun b => a b t)) (rev (seq k (T - k)))).

(** The advantage the specification's recurrence gives to entry [b, t]. *)
Definition spec_advantage (config : Config) (V Rw : tensor2) (b t : nat) : R :=
  nth t (spec_advantages (gamma config) (lam config)
           (nth b V []) (nth b Rw [])) 0.

(** A configuration used in the examples. *)
Definition example_config : Config :=
  {| gamma := 1; lam := 0.95; cliprange := 0.2; cliprange_value := 0.2;
     vf_coef := 2.3; init_kl_coef := 0.2; target := Some 6; horizon := 10000;
     ppo_epochs := 4; num_rollouts := 128; batch_size := 128;
     eval_interval := 16; total_steps := 0; epochs := 0 |}.

(** [example_config] with a negative [cliprange]. *)
Definition negative_cliprange_config : Config :=
  {| gamma := 1; lam := 0.95; cliprange := -0.5; cliprange_value := 0.2;
     vf_coef := 2.3; init_kl_coef := 0.2; target := Some 6; horizon := 10000;
     ppo_epochs := 4; num_rollouts := 128; batch_size := 128;
     eval_interval := 16; total_steps := 0; epochs := 0 |}.

(** [example_config] with [cliprange_value = 0]. *)
Definition zero_cliprange_value_config : Config :=
  {| gamma := 1; lam := 0.95; cliprange := 0.2; cliprange_value := 0;
     vf_coef := 2.3; init_kl_coef := 0.2; target := Some 6; horizon := 10000;
     ppo_epochs := 4; num_rollouts := 128; batch_size := 128;
     eval_interval := 16; total_steps := 0; epochs := 0 |}.

(** A forward pass that returns log-probability 0 and value 0 for one
    trajectory with one generated token. *)
Definition example_policy (tokens : list (list Z)) : tensor2 * tensor2 :=
  ([[0]], [[0; 0]]).

(** [example_config] with [ppo_epochs = 0]. *)
Definition zero_ppo_epochs_config : Config :=
  {| gamma := 1; lam := 0.95; cliprange := 0.2; cliprange_value := 0.2;
     vf_coef := 2.3; init_kl_coef := 0.2; target := Some 6; horizon := 10000;
     ppo_epochs := 0; num_rollouts := 128; batch_size := 128;
     eval_interval := 16; total_steps := 0; epochs := 0 |}.

(** One trajectory with one prompt token and one generated token. *)
Definition example_batch : Batch :=
  {| query_tensors := [[1%Z]]; response_tensors := [[7%Z]];
     logprobs := [[0]]; values := [[1]]; rewards := [[0]] |}.

(** A model without trainable state, before [learn]: nothing assigned but
    the controller and the store. *)
Definition example_model (rollouts : list Batch) : Model unit :=
  {| params := tt;
     kl_ctl := Adaptive {| AdaptiveKLController.value := 0.2;
                           AdaptiveKLController.target := 6;
                           AdaptiveKLController.horizon := 10000 |};
     store := rollouts; iter_count := 0; epoch := 0;
     mean_kl := None; logs := None; trace := [] |}.

(** [k] successive calls [update(current, n_steps)] on an Adaptive
    controller, with the same arguments. *)
Fixpoint adaptive_updates (k : nat) (c : AdaptiveKLController.t)
  (current n_steps : R) : result AdaptiveKLController.t :=
  match k with
  | O => Ok c
  | S k' =>
      c' <- AdaptiveKLController.update c current n_steps ;;
      adaptive_updates k' c' current n_steps
  end.

(** [example_config] with [gamma = 1] and [lam = 1]. *)
Definition undiscounted_config : Config :=
  {| gamma := 1; lam := 1; cliprange := 0.2; cliprange_value := 0.2;
     vf_coef := 2.3; init_kl_coef := 0.2; target := Some 6; horizon := 10000;
     ppo_epochs := 4; num_rollouts := 128; batch_size := 128;
     eval_interval := 16; total_steps := 0; epochs := 0 |}.

(** The number of events of a trace that satisfy [p]. *)
Definition count_events (p : event -> bool) (tr : list event) : nat :=
  length (filter p tr).

Definition is_opt_step (e : event) : bool :=
  match e with
  | EvOptStep => true
  | _ => false
  end.

Definition is_eval (e : event) : bool :=
  match e with
  | EvEval _ _ _ _ => true
  | _ => false
  end.

(** Two controllers of the same class that agree on what [update] never
    assigns: everything for the Fixed one, target and horizon for the
    Adaptive one. *)
Definition same_controller (k0 k : KLController) : Prop :=
  match k0, k with
  | Fixed c0, Fixed c => c = c0
  | Adaptive c0, Adaptive c =>
      AdaptiveKLController.target c = AdaptiveKLController.target c0 /\
      AdaptiveKLController.horizon c = AdaptiveKLController.horizon c0
  | _, _ => False
  end.

(** [example_config] with [eval_interval = 0]. *)
Definition zero_eval_interval_config : Config :=
  {| gamma := 1; lam := 0.95; cliprange := 0.2; cliprange_value := 0.2;
     vf_coef := 2.3; init_kl_coef := 0.2; target := Some 6; horizon := 10000;
     ppo_epochs := 4; num_rollouts := 128; batch_size := 128;
     eval_interval := 0; total_steps := 0; epochs := 0 |}.

(** [example_config] with [total_steps = 100]. *)
Definition hundred_steps_config : Config :=
  {| gamma := 1; lam := 0.95; cliprange := 0.2; cliprange_value := 0.2;
     vf_coef := 2.3; init_kl_coef := 0.2; target := Some 6; horizon := 10000;
     ppo_epochs := 4; num_rollouts := 128; batch_size := 128;
     eval_interval := 16; total_steps := 100; epochs := 0 |}.

(** A forward pass for a batch of one row of two tokens: one log
    probability and two value predictions, all zero. *)
Definition two_token_policy (tokens : list (list Z)) : tensor2 * tensor2 :=
  ([[0]], [[0; 0]]).

(** One trajectory with an empty prompt and two generated tokens, stored
    with three log probabilities. *)
Definition three_logprobs_batch : Batch :=
  {| query_tensors := [[]]; response_tensors := [[7%Z; 8%Z]];
     logprobs := [[1; 2; 4]]; values := [[0; 0]]; rewards := [[0; 0]] |}.

(* ------------------------------------------------------------------ *)
(** ** Lists, tables and the error monad *)

Lemma mapM_pure {A B : Type} (f : A -> B) (l : list A) :
  mapM (fun x => Ok (f x)) l = Ok (map f l).
Proof.
  induction l as [|a l IH]; simpl; [reflexivity|].
  rewrite IH. reflexivity.
Qed.

Lemma mapM_map {A B C : Type} (g : A -> B) (f : B -> result C) (l : list A) :
  mapM f (map g l) = mapM (fun x => f (g x)) l.
Proof.
  induction l as [|a l IH]; simpl; [reflexivity|].
  rewrite IH. reflexivity.
Qed.

Lemma mapM_ext_in {A B : Type} (f g : A -> result B) (l : list A) :
  (forall x, In x l -> f x = g x) -> mapM f l = mapM g l.
Proof.
  induction l as [|a l IH]; simpl; intros H; [reflexivity|].
  rewrite (H a) by (left; reflexivity).
  rewrite IH by (intros x Hx; apply H; right; exact Hx).
  reflexivity.
Qed.

Lemma tab_length {A : Type} (n : nat) (f : nat -> A) : length (tab n f) = n.
Proof. unfold tab. rewrite length_map, length_seq. reflexivity. Qed.

Lemma tab_ext {A : Type} (n : nat) (f g : nat -> A) :
  (forall i, (i < n)%nat -> f i = g i) -> tab n f = tab n g.
Proof.
  intros H. unfold tab. apply map_ext_in.
  intros i Hi. apply in_seq in Hi. apply H. lia.
Qed.

Lemma tab_nth {A : Type} (n : nat) (f : nat -> A) (d : A) (i : nat) :
  (i < n)%nat -> nth i (tab n f) d = f i.
Proof.
  intros H. unfold tab.
  rewrite (nth_indep _ d (f 0%nat)) by (rewrite length_map, length_seq; exact H).
  rewrite map_nth, seq_nth by exact H. reflexivity.
Qed.

Lemma tab_nth_error {A : Type} (n : nat) (f : nat -> A) (i : nat) :
  (i < n)%nat -> nth_error (tab n f) i = Some (f i).
Proof.
  intros H. unfold tab.
  rewrite nth_error_map, nth_error_seq.
  destruct (Nat.ltb_spec i n); [reflexivity | lia].
Qed.

Lemma tab_map {A B : Type} (g : A -> B) (n : nat) (f : nat -> A) :
  map g (tab n f) = tab n (fun i => g (f i)).
Proof. unfold tab. rewrite map_map. reflexivity. Qed.

Lemma tab_of_list {A : Type} (d : A) (l : list A) :
  l = tab (length l) (fun i => nth i l d).
Proof.
  apply (nth_ext _ _ d d).
  - rewrite tab_length. reflexivity.
  - intros i Hi. rewrite tab_nth by exact Hi. reflexivity.
Qed.

Lemma has_shape_tab2 (B T : nat) (m : tensor2) :
  has_shape B T m -> m = tab2 B T (el m).
Proof.
  intros [HB HT]. unfold tab2, el.
  rewrite (tab_of_list [] m) at 1. rewrite HB.
  apply tab_ext. intros b Hb.
  assert (Hlen : length (nth b m []) = T).
  { rewrite Forall_forall in HT. apply HT. apply nth_In.
    rewrite <- HB in Hb. exact Hb. }
  rewrite <- Hlen. apply (tab_of_list 0).
Qed.

Lemma tab2_shape (B T : nat) (f : nat -> nat -> R) : has_shape B T (tab2 B T f).
Proof.
  split.
  - apply tab_length.
  - unfold tab2, tab. apply Forall_forall. intros r Hr.
    apply in_map_iff in Hr. destruct Hr as [b [<- _]].
    rewrite length_map, length_seq. reflexivity.
Qed.

Lemma tab2_el (B T : nat) (f : nat -> nat -> R) (b t : nat) :
  (b < B)%nat -> (t < T)%nat -> el (tab2 B T f) b t = f b t.
Proof.
  intros Hb Ht. unfold el, tab2.
  rewrite tab_nth by exact Hb. apply tab_nth. exact Ht.
Qed.

Lemma tab2_ext (B T : nat) (f g : nat -> nat -> R) :
  (forall b t, (b < B)%nat -> (t < T)%nat -> f b t = g b t) ->
  tab2 B T f = tab2 B T g.
Proof.
  intros H. unfold tab2. apply tab_ext. intros b Hb.
  apply tab_ext. intros t Ht. apply H; assumption.
Qed.

Lemma combine_tab {A B : Type} (n : nat) (u : nat -> A) (v : nat -> B) :
  combine (tab n u) (tab n v) = tab n (fun i => (u i, v i)).
Proof.
  unfold tab. generalize (seq 0 n). intros l.
  induction l as [|a l IH]; simpl; [reflexivity|].
  rewrite IH. reflexivity.
Qed.

Lemma bcast_tab {A B C : Type} (f : A -> B -> result C) (n : nat)
  (u : nat -> A) (v : nat -> B) :
  bcast f (tab n u) (tab n v) = mapM (fun i => f (u i) (v i)) (seq 0 n).
Proof.
  unfold bcast. rewrite !tab_length, Nat.eqb_refl.
  rewrite combine_tab. unfold tab. rewrite mapM_map. reflexivity.
Qed.

Lemma bcast1_tab (f : R -> R -> R) (n : nat) (u v : nat -> R) :
  bcast1 f (tab n u) (tab n v) = Ok (tab n (fun i => f (u i) (v i))).
Proof. unfold bcast1. rewrite bcast_tab. apply mapM_pure. Qed.

Lemma bcast2_tab2 (f : R -> R -> R) (B T : nat) (u v : nat -> nat -> R) :
  bcast2 f (tab2 B T u) (tab2 B T v)
  = Ok (tab2 B T (fun b t => f (u b t) (v b t))).
Proof.
  unfold bcast2, tab2. rewrite bcast_tab.
  rewrite (mapM_ext_in _ (fun b => Ok (tab T (fun t => f (u b t) (v b t))))).
  - apply mapM_pure.
  - intros b _. apply bcast1_tab.
Qed.

Lemma map2_tab2 (g : R -> R) (B T : nat) (u : nat -> nat -> R) :
  map (map g) (tab2 B T u) = tab2 B T (fun b t => g (u b t)).
Proof.
  unfold tab2. rewrite tab_map. apply tab_ext. intros b _. apply tab_map.
Qed.

Lemma col_tab2 (B T : nat) (u : nat -> nat -> R) (t : nat) :
  (t < T)%nat -> col (tab2 B T u) t = Ok (tab B (fun b => u b t)).
Proof.
  intros Ht. unfold col, tab2, tab at 1. rewrite mapM_map.
  rewrite (mapM_ext_in _ (fun b => Ok (u b t))).
  - apply mapM_pure.
  - intros b _. rewrite tab_nth_error by exact Ht. reflexivity.
Qed.

Lemma shape1_of_shape {A : Type} (B T : nat) (m : list (list A)) :
  (1 <= B)%nat -> has_shape B T m -> shape1 m = T.
Proof.
  intros HB [Hlen Hrows]. destruct m as [|r m]; simpl in *; [lia|].
  inversion Hrows; assumption.
Qed.

Lemma stack_tab (T B : nat) (f : nat -> nat -> R) :
  (1 <= T)%nat ->
  stack (tab T (fun t => tab B (f t))) = Ok (tab T (fun t => tab B (f t))).
Proof.
  intros HT. destruct T as [|T]; [lia|].
  unfold tab at 1. simpl seq. simpl map. unfold stack.
  replace (forallb _ _) with true; [reflexivity|].
  symmetry. apply forallb_forall. intros x Hx.
  apply in_map_iff in Hx. destruct Hx as [t [<- _]].
  rewrite !tab_length. apply Nat.eqb_refl.
Qed.

Lemma transpose_tab (T B : nat) (f : nat -> nat -> R) :
  (1 <= T)%nat ->
  transpose (tab T (fun t => tab B (fun b => f b t))) = tab2 B T f.
Proof.
  intros HT. unfold transpose.
  assert (Hs : shape1 (tab T (fun t => tab B (fun b => f b t))) = B).
  { destruct T as [|T]; [lia|]. unfold tab at 1. simpl. apply tab_length. }
  rewrite Hs. unfold tab2. fold (tab B (fun j =>
    map (fun r => nth j r 0) (tab T (fun t => tab B (fun b => f b t))))).
  apply tab_ext. intros b Hb. rewrite tab_map.
  apply tab_ext. intros t Ht. rewrite tab_nth by exact Hb. reflexivity.
Qed.

(* ------------------------------------------------------------------ *)
(** ** The GAE loop *)

Lemma spec_advantages_length (g l : R) (V Rw : list R) :
  length V = length Rw -> length (spec_advantages g l V Rw) = length V.
Proof.
  revert Rw. induction V as [|v V IH]; intros [|r Rw] H; simpl in *;
    try reflexivity; try discriminate.
  rewrite IH by lia. reflexivity.
Qed.

Lemma hd_nth0 (l : list R) : hd 0 l = nth 0 l 0.
Proof. destruct l; reflexivity. Qed.

(** The recurrence, read off at position [t]. *)
Lemma spec_advantages_rec (g l : R) (V Rw : list R) (t : nat) :
  length V = length Rw -> (t < length V)%nat ->
  nth t (spec_advantages g l V Rw) 0
  = nth t Rw 0
    + g * (if Nat.ltb t (length V - 1) then nth (S t) V 0 else 0)
    - nth t V 0
    + g * l * nth (S t) (spec_advantages g l V Rw) 0.
Proof.
  revert Rw t. induction V as [|v V IH]; intros [|r Rw] t Hlen Ht;
    simpl in Hlen, Ht; try lia.
  destruct t as [|t].
  - simpl. rewrite Nat.sub_0_r, !hd_nth0.
    destruct V as [|v' V]; simpl; reflexivity.
  - cbn [spec_advantages nth length].
    rewrite IH by lia.
    replace (S (length V) - 1)%nat with (length V) by lia.
    destruct V as [|v' V]; [simpl in Ht; lia|].
    cbn [length].
    replace (S (length V) - 1)%nat with (length V) by lia.
    destruct (Nat.ltb_spec t (length V)), (Nat.ltb_spec (S t) (S (length V)));
      try lia; reflexivity.
Qed.

Section GaeLoop.

Variable config : Config.
Variables B T : nat.

(** Values, rewards and advantages as functions of the batch element and
    the position. *)
Variables v r a : nat -> nat -> R.

Hypothesis a_rec : forall b t, (b < B)%nat -> (t < T)%nat ->
  a b t = r b t
          + gamma config * (if Nat.ltb t (T - 1) then v b (S t) else 0)
          - v b t
          + gamma config * lam config
            * (if Nat.eqb (S t) T then 0 else a b (S t)).

Lemma gae_step_tab (t : nat) :
  (t < T)%nat ->
  gae_step config (tab2 B T v) (tab2 B T r) T (gae_state B T a (S t)) t
  = Ok (gae_state B T a t).
Proof.
  intros Ht. unfold gae_step, gae_state.
  assert (Hstate : map (fun t0 => tab B (fun b => a b t0))
                     (rev (seq t (T - t)))
                   = map (fun t0 => tab B (fun b => a b t0))
                       (rev (seq (S t) (T - S t)))
                     ++ [tab B (fun b => a b t)]).
  { replace (T - t)%nat with (S (T - S t)) by lia.
    simpl seq. simpl rev. rewrite map_app. reflexivity. }
  rewrite Hstate.
  replace (Nat.eqb t T) with false by (symmetry; apply Nat.eqb_neq; lia).
  rewrite (col_tab2 B T r t Ht), (col_tab2 B T v t Ht).
  destruct (Nat.ltb_spec t (T - 1)) as [Hlt|Hge].
  - rewrite col_tab2 by lia. cbn [bind bscale vop].
    rewrite tab_map, bcast1_tab. cbn [bind]. rewrite bcast1_tab. cbn [bind].
    replace (Nat.eqb (S t) T) with false
      by (symmetry; apply Nat.eqb_neq; lia).
    cbn [bscale vop]. rewrite tab_map, bcast1_tab. cbn [bind].
    match goal with
    | |- Ok (Vec ?x, _) = _ =>
        assert (Hvec : x = tab B (fun b => a b t))
    end.
    { apply tab_ext. intros b Hb. rewrite (a_rec b t Hb Ht).
      destruct (Nat.ltb_spec t (T - 1)); [|lia].
      replace (Nat.eqb (S t) T) with false
        by (symmetry; apply Nat.eqb_neq; lia).
      rewrite Nat.add_1_r. reflexivity. }
    rewrite Hvec. reflexivity.
  - cbn [bind bscale vop]. rewrite tab_map, bcast1_tab. cbn [bind].
    replace (Nat.eqb (S t) T) with true
      by (symmetry; apply Nat.eqb_eq; lia).
    cbn [bscale vop]. rewrite tab_map. cbn [bind].
    match goal with
    | |- Ok (Vec ?x, _) = _ =>
        assert (Hvec : x = tab B (fun b => a b t))
    end.
    { apply tab_ext. intros b Hb. rewrite (a_rec b t Hb Ht).
      destruct (Nat.ltb_spec t (T - 1)); [lia|].
      replace (Nat.eqb (S t) T) with true
        by (symmetry; apply Nat.eqb_eq; lia).
      reflexivity. }
    rewrite Hvec. reflexivity.
Qed.

Lemma gae_loop_tab (n : nat) :
  (n <= T)%nat ->
  foldM (gae_step config (tab2 B T v) (tab2 B T r) T)
        (rev (seq 0 n)) (gae_state B T a n)
  = Ok (gae_state B T a 0).
Proof.
  induction n as [|n IH]; intros Hn; [reflexivity|].
  rewrite seq_S, rev_app_distr. cbn [rev app foldM Nat.add].
  rewrite gae_step_tab by lia. cbn [bind]. apply IH. lia.
Qed.

Lemma gae_tab2 (resp : list (list Z)) :
  (1 <= B)%nat -> (1 <= T)%nat -> has_shape B T resp ->
  gae config resp (tab2 B T v) (tab2 B T r)
  = Ok (tab2 B T a, tab2 B T (fun b t => a b t + v b t)).
Proof.
  intros HB HT Hresp. unfold gae.
  rewrite (shape1_of_shape B T resp HB Hresp).
  assert (H0 : (Scalar 0, @nil tensor1) = gae_state B T a T).
  { unfold gae_state. rewrite Nat.eqb_refl, Nat.sub_diag. reflexivity. }
  rewrite H0, gae_loop_tab by lia. cbn [bind].
  unfold gae_state at 1. cbn [snd]. rewrite Nat.sub_0_r.
  rewrite <- map_rev, rev_involutive.
  fold (tab T (fun t => tab B (fun b => a b t))).
  rewrite (stack_tab T B (fun t b => a b t)) by exact HT. cbn [bind].
  rewrite transpose_tab by exact HT.
  rewrite bcast2_tab2. reflexivity.
Qed.

End GaeLoop.

(** On a well-shaped batch the loop returns the advantages of the
    specification's recurrence, and the returns built from them. *)
Lemma gae_spec_ok (config : Config) (B T : nat) (resp : list (list Z))
  (V Rw : tensor2) :
  (1 <= B)%nat -> (1 <= T)%nat ->
  has_shape B T resp -> has_shape B T V -> has_shape B T Rw ->
  gae config resp V Rw
  = Ok (tab2 B T (spec_advantage config V Rw),
        tab2 B T (fun b t => spec_advantage config V Rw b t + el V b t)).
Proof.
  intros HB HT Hresp HV HR.
  rewrite (has_shape_tab2 B T V HV) at 1.
  rewrite (has_shape_tab2 B T Rw HR) at 1.
  apply gae_tab2; try assumption.
  intros b t Hb Ht. unfold spec_advantage, el.
  assert (HlV : length (nth b V []) = T).
  { destruct HV as [HVl HVr]. rewrite Forall_forall in HVr. apply HVr.
    apply nth_In. rewrite <- HVl in Hb. exact Hb. }
  assert (HlR : length (nth b Rw []) = T).
  { destruct HR as [HRl HRr]. rewrite Forall_forall in HRr. apply HRr.
    apply nth_In. rewrite <- HRl in Hb. exact Hb. }
  rewrite spec_advantages_rec by (rewrite ?HlV, ?HlR; auto).
  rewrite HlV.
  destruct (Nat.eqb_spec (S t) T) as [E|E]; [|reflexivity].
  rewrite (nth_overflow (spec_advantages _ _ _ _) 0 (n := S t)).
  - reflexivity.
  - rewrite spec_advantages_length by (rewrite HlV, HlR; reflexivity).
    rewrite HlV. lia.
Qed.

(** C1.  For a batch of values [V] and rewards [Rw] of shape [B, T] with
    [T >= 1], the loss computes the advantages (before whitening) that the
    backward GAE recurrence of the specification defines, and its returns
    are [advantages + V] at every entry. *)
Theorem gae_recurrence_and_returns (config : Config) (B T : nat)
  (resp : list (list Z)) (V Rw : tensor2) :
  (1 <= B)%nat -> (1 <= T)%nat ->
  has_shape B T resp -> has_shape B T V -> has_shape B T Rw ->
  exists advantages returns,
    gae config resp V Rw = Ok (advantages, returns) /\
    has_shape B T advantages /\ has_shape B T returns /\
    forall b t, (b < B)%nat -> (t < T)%nat ->
      el advantages b t
      = nth t (spec_advantages (gamma config) (lam config)
                 (nth b V []) (nth b Rw [])) 0 /\
      el returns b t = el advantages b t + el V b t.
Proof.
  intros HB HT Hresp HV HR.
  eexists. eexists. split; [apply (gae_spec_ok config B T); assumption|].
  split; [apply tab2_shape|]. split; [apply tab2_shape|].
  intros b t Hb Ht. rewrite !tab2_el by assumption.
  split; reflexivity.
Qed.

Lemma example_shape_1_1 {A : Type} (x : A) : has_shape 1 1 [[x]].
Proof. split; [reflexivity | repeat constructor]. Qed.

Lemma gae_recurrence_and_returns_witness :
  exists advantages returns,
    gae example_config [[7%Z]] [[1]] [[0]] = Ok (advantages, returns) /\
    has_shape 1 1 advantages /\ has_shape 1 1 returns /\
    forall b t, (b < 1)%nat -> (t < 1)%nat ->
      el advantages b t
      = nth t (spec_advantages (gamma example_config) (lam example_config)
                 (nth b [[1]] []) (nth b [[0]] [])) 0 /\
      el returns b t = el advantages b t + el [[1]] b t.
Proof.
  apply (gae_recurrence_and_returns example_config 1 1 [[7%Z]] [[1]] [[0]]).
  - lia.
  - lia.
  - apply example_shape_1_1.
  - apply example_shape_1_1.
  - apply example_shape_1_1.
Defined.

(** The scenario of the specification: two trajectories of three steps,
    [gamma = lam = 1], rewards [[1,0,0],[0,0,1]] and values all zero give
    the advantages [[1,0,0],[1,1,1]], and returns equal to them. *)
Example gae_cumulative_future_reward :
  exists advantages returns,
    gae undiscounted_config [[1; 2; 3]; [4; 5; 6]]%Z
      [[0; 0; 0]; [0; 0; 0]] [[1; 0; 0]; [0; 0; 1]]
    = Ok (advantages, returns) /\
    (el advantages 0 0 = 1 /\ el advantages 0 1 = 0 /\ el advantages 0 2 = 0) /\
    (el advantages 1 0 = 1 /\ el advantages 1 1 = 1 /\ el advantages 1 2 = 1) /\
    (el returns 0 0 = 1 /\ el returns 0 1 = 0 /\ el returns 0 2 = 0) /\
    (el returns 1 0 = 1 /\ el returns 1 1 = 1 /\ el returns 1 2 = 1).
Proof.
  eexists. eexists.
  split.
  - apply (gae_spec_ok undiscounted_config 2 3); try lia;
      (split; [reflexivity | repeat constructor]).
  - rewrite !tab2_el by lia.
    unfold spec_advantage, el. cbn [nth spec_advantages hd].
    unfold undiscounted_config. cbn [gamma lam].
    repeat split; lra.
Qed.

Lemma spec_advantages_zero (g l : R) (V Rw : list R) :
  Forall (fun x => x = 0) V -> Forall (fun x => x = 0) Rw ->
  Forall (fun x => x = 0) (spec_advantages g l V Rw).
Proof.
  intros HV. revert Rw. induction HV as [|v V Hv HV IH]; intros Rw HR.
  - constructor.
  - destruct HR as [|r Rw Hr HR]; [constructor|].
    cbn [spec_advantages]. specialize (IH Rw HR).
    constructor; [|exact IH].
    assert (H1 : hd 0 V = 0) by (destruct HV; [reflexivity | assumption]).
    assert (H2 : hd 0 (spec_advantages g l V Rw) = 0)
      by (destruct IH; [reflexivity | assumption]).
    rewrite H1, H2, Hv, Hr. ring.
Qed.

Lemma row_of_shape (B T : nat) (m : tensor2) (b : nat) :
  has_shape B T m -> (b < B)%nat -> length (nth b m []) = T.
Proof.
  intros [Hl Hr] Hb. rewrite Forall_forall in Hr. apply Hr.
  apply nth_In. rewrite <- Hl in Hb. exact Hb.
Qed.

Lemma row_forall (B T : nat) (m : tensor2) (b : nat) (P : R -> Prop) :
  has_shape B T m -> (b < B)%nat ->
  (forall t, (t < T)%nat -> P (el m b t)) -> Forall P (nth b m []).
Proof.
  intros Hm Hb H. apply Forall_forall. intros x Hx.
  destruct (In_nth _ _ 0 Hx) as [t [Ht <-]].
  rewrite (row_of_shape B T m b Hm Hb) in Ht. apply (H t Ht).
Qed.

(** C8, as amended.  With all rewards zero and all values equal to [c], the
    advantage at the last position is [- c] and the return there is 0; when
    [c = 0], every advantage is exactly 0 and the returns equal the
    values. *)
Theorem gae_zero_rewards_constant_values (config : Config) (B T : nat)
  (resp : list (list Z)) (V Rw : tensor2) (c : R) :
  (1 <= B)%nat -> (1 <= T)%nat ->
  has_shape B T resp -> has_shape B T V -> has_shape B T Rw ->
  (forall b t, (b < B)%nat -> (t < T)%nat -> el Rw b t = 0) ->
  (forall b t, (b < B)%nat -> (t < T)%nat -> el V b t = c) ->
  exists advantages returns,
    gae config resp V Rw = Ok (advantages, returns) /\
    (forall b, (b < B)%nat ->
       el advantages b (T - 1) = - c /\ el returns b (T - 1) = 0) /\
    (c = 0 ->
     forall b t, (b < B)%nat -> (t < T)%nat ->
       el advantages b t = 0 /\ el returns b t = el V b t).
Proof.
  intros HB HT Hresp HV HR Hzero Hconst.
  eexists. eexists. split; [apply (gae_spec_ok config B T); assumption|].
  split.
  - intros b Hb. rewrite !tab2_el by lia.
    assert (Hlast : spec_advantage config V Rw b (T - 1) = - c).
    { unfold spec_advantage.
      rewrite spec_advantages_rec.
      - rewrite (row_of_shape B T V b HV Hb).
        replace (S (T - 1)) with T by lia.
        rewrite (nth_overflow (spec_advantages _ _ _ _) 0 (n := T)).
        + rewrite Nat.ltb_irrefl.
          fold (el Rw b (T - 1)). fold (el V b (T - 1)).
          rewrite Hzero, Hconst by lia. ring.
        + rewrite spec_advantages_length.
          * rewrite (row_of_shape B T V b HV Hb). lia.
          * rewrite (row_of_shape B T V b HV Hb),
              (row_of_shape B T Rw b HR Hb). reflexivity.
      - rewrite (row_of_shape B T V b HV Hb),
          (row_of_shape B T Rw b HR Hb). reflexivity.
      - rewrite (row_of_shape B T V b HV Hb). lia. }
    rewrite Hlast, Hconst by lia. split; ring.
  - intros Hc b t Hb Ht. rewrite !tab2_el by assumption.
    assert (Hz : spec_advantage config V Rw b t = 0).
    { unfold spec_advantage.
      assert (HF : Forall (fun x => x = 0)
                     (spec_advantages (gamma config) (lam config)
                        (nth b V []) (nth b Rw []))).
      { apply spec_advantages_zero.
        - apply (row_forall B T V b); try assumption.
          intros t' Ht'. rewrite Hconst by assumption. exact Hc.
        - apply (row_forall B T Rw b); try assumption.
          intros t' Ht'. apply Hzero; assumption. }
      rewrite Forall_forall in HF. apply HF. apply nth_In.
      rewrite spec_advantages_length.
      - rewrite (row_of_shape B T V b HV Hb). exact Ht.
      - rewrite (row_of_shape B T V b HV Hb),
          (row_of_shape B T Rw b HR Hb). reflexivity. }
    rewrite Hz. split; [reflexivity | ring].
Qed.

Lemma gae_zero_rewards_constant_values_witness :
  exists advantages returns,
    gae example_config [[7%Z; 8%Z]] [[0; 0]] [[0; 0]]
    = Ok (advantages, returns) /\
    (forall b, (b < 1)%nat ->
       el advantages b (2 - 1) = - 0 /\ el returns b (2 - 1) = 0) /\
    (0 = 0 ->
     forall b t, (b < 1)%nat -> (t < 2)%nat ->
       el advantages b t = 0 /\ el returns b t = el [[0; 0]] b t).
Proof.
  apply (gae_zero_rewards_constant_values example_config 1 2
           [[7%Z; 8%Z]] [[0; 0]] [[0; 0]] 0).
  - lia.
  - lia.
  - split; [reflexivity | repeat constructor].
  - split; [reflexivity | repeat constructor].
  - split; [reflexivity | repeat constructor].
  - intros b t Hb Ht.
    destruct b as [|b]; [|lia]. destruct t as [|[|t]]; [reflexivity..|lia].
  - intros b t Hb Ht.
    destruct b as [|b]; [|lia]. destruct t as [|[|t]]; [reflexivity..|lia].
Defined.

(** C8, counterexample.  One trajectory of one step with reward 0 and
    value 1: rewards are all zero and values constant, yet the advantage is
    [-1], not 0, and the return is 0, not the value 1. *)
Lemma gae_zero_rewards_constant_values_counterexample :
  exists advantages returns,
    gae example_config [[7%Z]] [[1]] [[0]] = Ok (advantages, returns) /\
    el advantages 0 0 = -1 /\ el advantages 0 0 <> 0 /\
    el returns 0 0 = 0 /\ el returns 0 0 <> el [[1]] 0 0.
Proof.
  eexists. eexists.
  split; [apply (gae_spec_ok example_config 1 1);
          try lia; apply example_shape_1_1|].
  rewrite !tab2_el by lia.
  unfold spec_advantage, el. cbn [nth spec_advantages hd].
  unfold example_config. cbn [gamma lam].
  repeat split; lra.
Qed.

(* ------------------------------------------------------------------ *)
(** ** The two losses on a well-shaped batch *)

Lemma rsum_app (l1 l2 : list R) : rsum (l1 ++ l2) = rsum l1 + rsum l2.
Proof.
  induction l1 as [|x l1 IH]; simpl; [ring|]. rewrite IH. ring.
Qed.

Lemma rsum_concat (m : tensor2) : rsum (concat m) = rsum (map rsum m).
Proof.
  induction m as [|r m IH]; simpl; [reflexivity|].
  rewrite rsum_app, IH. reflexivity.
Qed.

Lemma length_concat_rows (T : nat) (m : tensor2) :
  Forall (fun r => length r = T) m -> length (concat m) = (length m * T)%nat.
Proof.
  induction 1 as [|r m Hr Hm IH]; simpl; [reflexivity|].
  rewrite length_app, IH, Hr. reflexivity.
Qed.

Lemma rsum_ext (n : nat) (f g : nat -> R) :
  (forall i, (i < n)%nat -> f i = g i) -> rsum (tab n f) = rsum (tab n g).
Proof. intros H. rewrite (tab_ext n f g H). reflexivity. Qed.

Lemma mean_over_ext (B T : nat) (f g : nat -> nat -> R) :
  (forall b t, (b < B)%nat -> (t < T)%nat -> f b t = g b t) ->
  mean_over B T f = mean_over B T g.
Proof.
  intros H. unfold mean_over. f_equal.
  apply rsum_ext. intros b Hb. apply rsum_ext. intros t Ht.
  apply H; assumption.
Qed.

Lemma mean1_nonempty (v : tensor1) :
  (1 <= length v)%nat -> mean1 v = Ok (rsum v / INR (length v)).
Proof. destruct v; simpl; [lia | reflexivity]. Qed.

Lemma mean_tab2 (B T : nat) (f : nat -> nat -> R) :
  (1 <= B)%nat -> (1 <= T)%nat ->
  mean (tab2 B T f) = Ok (mean_over B T f).
Proof.
  intros HB HT. unfold mean.
  assert (Hlen : length (concat (tab2 B T f)) = (B * T)%nat).
  { rewrite (length_concat_rows T) by apply tab2_shape.
    unfold tab2. rewrite tab_length. reflexivity. }
  rewrite mean1_nonempty by (rewrite Hlen; nia).
  rewrite Hlen, rsum_concat. unfold mean_over, tab2.
  rewrite tab_map. reflexivity.
Qed.

Lemma value_loss_tab2 (config : Config) (B T : nat)
  (p o rt : nat -> nat -> R) :
  (1 <= B)%nat -> (1 <= T)%nat ->
  value_loss config (tab2 B T p) (tab2 B T o) (tab2 B T rt)
  = Ok (0.5 * mean_over B T (fun b t =>
          spec_value_term (cliprange_value config) (p b t) (o b t) (rt b t))).
Proof.
  intros HB HT. unfold value_loss, clip_by_value.
  repeat first [rewrite map2_tab2 | rewrite bcast2_tab2 | progress cbn [bind]].
  rewrite mean_tab2 by assumption. cbn [bind].
  reflexivity.
Qed.

Lemma policy_loss_tab2 (config : Config) (B T : nat) (w k : nat -> nat -> R) :
  (1 <= B)%nat -> (1 <= T)%nat ->
  policy_loss config (tab2 B T w) (tab2 B T k)
  = Ok (mean_over B T (fun b t =>
          Rmax (- w b t * exp (k b t))
               (- w b t * clamp (exp (k b t)) (1 - cliprange config)
                                (1 + cliprange config)))).
Proof.
  intros HB HT. unfold policy_loss.
  repeat first [rewrite map2_tab2 | rewrite bcast2_tab2 | progress cbn [bind]].
  apply mean_tab2; assumption.
Qed.

Lemma mean_kl_tab2 (B T : nat) (k : nat -> nat -> R) :
  (1 <= B)%nat ->
  mean1 (map rsum (tab2 B T k))
  = Ok (rsum (tab B (fun b => rsum (tab T (k b)))) / INR B).
Proof.
  intros HB. unfold tab2. rewrite tab_map.
  rewrite mean1_nonempty by (rewrite tab_length; exact HB).
  rewrite tab_length. reflexivity.
Qed.

(** The whole of [loss] on a well-shaped batch, when the forward pass
    returns [new_logprob] and [new_value] of the batch's shape and [whiten]
    keeps the shape. *)
Lemma loss_spec_ok (config : Config) (whiten : tensor2 -> tensor2)
  (policy : list (list Z) -> tensor2 * tensor2) (B T : nat)
  (q resp : list (list Z)) (old_logprob V Rw new_logprob new_value : tensor2) :
  batch_shaped B T q resp old_logprob V Rw ->
  (forall m, has_shape B T m -> has_shape B T (whiten m)) ->
  forward policy q resp = Ok (new_logprob, new_value) ->
  has_shape B T new_logprob -> has_shape B T new_value ->
  exists advantages returns,
    gae config resp V Rw = Ok (advantages, returns) /\
    let pg := spec_policy_loss (cliprange config) B T
                (whiten advantages) new_logprob old_logprob in
    let vf := spec_value_loss (cliprange_value config) B T
                new_value V returns in
    loss config whiten policy q resp old_logprob V Rw
    = Ok {| model_loss := pg + vf_coef config * vf;
            out_pg_loss := pg;
            out_vf_loss := vf;
            out_mean_kl :=
              rsum (tab B (fun b => rsum (tab T (fun t =>
                el new_logprob b t - el old_logprob b t)))) / INR B |}.
Proof.
  intros (HB & HT & Hq & Hresp & Hold & HV & HR) Hwhiten Hfwd Hnl Hnv.
  eexists. eexists. split; [apply (gae_spec_ok config B T); assumption|].
  cbv zeta. unfold loss.
  rewrite (gae_spec_ok config B T) by assumption. cbn [bind].
  rewrite Hfwd. cbn [bind].
  set (adv := tab2 B T (spec_advantage config V Rw)).
  set (ret := tab2 B T (fun b t => spec_advantage config V Rw b t + el V b t)).
  assert (Hadv : has_shape B T (whiten adv)) by (apply Hwhiten, tab2_shape).
  rewrite (has_shape_tab2 B T new_value Hnv) at 1.
  rewrite (has_shape_tab2 B T V HV) at 1.
  unfold ret at 1. rewrite value_loss_tab2 by assumption. cbn [bind].
  rewrite (has_shape_tab2 B T new_logprob Hnl) at 1.
  rewrite (has_shape_tab2 B T old_logprob Hold) at 1.
  rewrite bcast2_tab2. cbn [bind].
  rewrite mean_kl_tab2 by assumption. cbn [bind].
  rewrite (has_shape_tab2 B T (whiten adv) Hadv) at 1.
  rewrite policy_loss_tab2 by assumption. cbn [bind].
  assert (Hpg : mean_over B T (fun b t =>
                  Rmax (- el (whiten adv) b t
                        * exp (el new_logprob b t - el old_logprob b t))
                       (- el (whiten adv) b t
                        * clamp (exp (el new_logprob b t - el old_logprob b t))
                            (1 - cliprange config) (1 + cliprange config)))
                = spec_policy_loss (cliprange config) B T
                    (whiten adv) new_logprob old_logprob) by reflexivity.
  assert (Hvf : 0.5 * mean_over B T (fun b t =>
                  spec_value_term (cliprange_value config) (el new_value b t)
                    (el V b t) (spec_advantage config V Rw b t + el V b t))
                = spec_value_loss (cliprange_value config) B T
                    new_value V ret).
  { unfold spec_value_loss. f_equal. apply mean_over_ext.
    intros b t Hb Ht. unfold ret. rewrite tab2_el by assumption.
    reflexivity. }
  rewrite Hpg, Hvf. reflexivity.
Qed.

Lemma rsum_opp (n : nat) (f : nat -> R) :
  rsum (tab n (fun i => - f i)) = - rsum (tab n f).
Proof.
  unfold tab. generalize (seq 0 n). intros l.
  induction l as [|i l IH]; simpl; [ring|]. rewrite IH. ring.
Qed.

Lemma mean_over_opp (B T : nat) (f : nat -> nat -> R) :
  mean_over B T (fun b t => - f b t) = - mean_over B T f.
Proof.
  unfold mean_over.
  rewrite (rsum_ext B _ (fun b => - rsum (tab T (f b))))
    by (intros b _; apply rsum_opp).
  rewrite rsum_opp. unfold Rdiv. ring.
Qed.

Lemma clamp_one (c : R) : 0 <= c -> clamp 1 (1 - c) (1 + c) = 1.
Proof.
  intros Hc. unfold clamp.
  rewrite Rmax_left by lra. apply Rmin_left. lra.
Qed.

(** C2, as amended.  The policy loss returned by [loss] is the mean over
    all entries of [max(loss1, loss2)], with [ratio = exp(new_logprob -
    old_logprob)], [loss1 = - advantages * ratio] and [loss2 = - advantages
    * clip(ratio, 1 - cliprange, 1 + cliprange)], the advantages being the
    whitened ones; and when [cliprange >= 0] and the ratio is 1 at every
    entry, it is [- mean(advantages)]. *)
Theorem policy_loss_clipped_surrogate (config : Config)
  (whiten : tensor2 -> tensor2)
  (policy : list (list Z) -> tensor2 * tensor2) (B T : nat)
  (q resp : list (list Z)) (old_logprob V Rw new_logprob new_value : tensor2) :
  batch_shaped B T q resp old_logprob V Rw ->
  (forall m, has_shape B T m -> has_shape B T (whiten m)) ->
  forward policy q resp = Ok (new_logprob, new_value) ->
  has_shape B T new_logprob -> has_shape B T new_value ->
  exists advantages returns out,
    gae config resp V Rw = Ok (advantages, returns) /\
    loss config whiten policy q resp old_logprob V Rw = Ok out /\
    out_pg_loss out
    = spec_policy_loss (cliprange config) B T
        (whiten advantages) new_logprob old_logprob /\
    (0 <= cliprange config ->
     (forall b t, (b < B)%nat -> (t < T)%nat ->
        exp (el new_logprob b t - el old_logprob b t) = 1) ->
     out_pg_loss out = - mean_over B T (el (whiten advantages))).
Proof.
  intros Hbatch Hwhiten Hfwd Hnl Hnv.
  destruct (loss_spec_ok config whiten policy B T q resp old_logprob V Rw
              new_logprob new_value Hbatch Hwhiten Hfwd Hnl Hnv)
    as (adv & ret & Hgae & Hloss).
  cbv zeta in Hloss.
  exists adv, ret. eexists. split; [exact Hgae|]. split; [exact Hloss|].
  cbn [out_pg_loss]. split; [reflexivity|].
  intros Hc Hratio. unfold spec_policy_loss.
  rewrite <- mean_over_opp. apply mean_over_ext.
  intros b t Hb Ht. unfold spec_policy_term. cbv zeta.
  rewrite (Hratio b t Hb Ht), clamp_one by exact Hc.
  rewrite Rmult_1_r. apply Rmax_left. lra.
Qed.

Lemma example_batch_shaped :
  batch_shaped 1 1 [[1%Z]] [[7%Z]] [[0]] [[1]] [[0]].
Proof.
  unfold batch_shaped.
  repeat split; try lia; repeat constructor.
Qed.

Lemma identity_keeps_shape (B T : nat) (m : tensor2) :
  has_shape B T m -> has_shape B T ((fun x : tensor2 => x) m).
Proof. intros H. exact H. Qed.

Lemma policy_loss_clipped_surrogate_witness :
  exists advantages returns out,
    gae example_config [[7%Z]] [[1]] [[0]] = Ok (advantages, returns) /\
    loss example_config (fun m => m) example_policy
      [[1%Z]] [[7%Z]] [[0]] [[1]] [[0]] = Ok out /\
    out_pg_loss out
    = spec_policy_loss (cliprange example_config) 1 1
        ((fun m => m) advantages) [[0]] [[0]] /\
    (0 <= cliprange example_config ->
     (forall b t, (b < 1)%nat -> (t < 1)%nat ->
        exp (el [[0]] b t - el [[0]] b t) = 1) ->
     out_pg_loss out = - mean_over 1 1 (el ((fun m => m) advantages))).
Proof.
  apply (policy_loss_clipped_surrogate example_config (fun m => m)
           example_policy 1 1 [[1%Z]] [[7%Z]] [[0]] [[1]] [[0]]
           [[0]] [[0]]).
  - exact example_batch_shaped.
  - exact (identity_keeps_shape 1 1).
  - reflexivity.
  - apply example_shape_1_1.
  - apply example_shape_1_1.
Defined.

Lemma constant_keeps_shape (m : tensor2) :
  has_shape 1 1 m -> has_shape 1 1 ((fun _ : tensor2 => [[1]]) m).
Proof. intros _. apply example_shape_1_1. Qed.

(** C2, counterexample.  One trajectory of one token, the advantages forced
    to the constant [[1]], new and old log-probabilities equal (ratio 1),
    and [cliprange = -0.5]: the policy loss is [-0.5], while
    [- mean(advantages)] is [-1]. *)
Lemma policy_loss_ratio_one_counterexample :
  exists out,
    loss negative_cliprange_config (fun _ => [[1]]) example_policy
      [[1%Z]] [[7%Z]] [[0]] [[1]] [[0]] = Ok out /\
    forward example_policy [[1%Z]] [[7%Z]] = Ok ([[0]], [[0]]) /\
    exp (el [[0]] 0 0 - el [[0]] 0 0) = 1 /\
    out_pg_loss out = -0.5 /\
    out_pg_loss out <> - mean_over 1 1 (el [[1]]).
Proof.
  destruct (loss_spec_ok negative_cliprange_config (fun _ => [[1]])
              example_policy 1 1 [[1%Z]] [[7%Z]] [[0]] [[1]] [[0]]
              [[0]] [[0]] example_batch_shaped constant_keeps_shape
              eq_refl (example_shape_1_1 0) (example_shape_1_1 0))
    as (adv & ret & _ & Hloss).
  cbv zeta in Hloss. eexists. split; [exact Hloss|].
  split; [reflexivity|].
  assert (Hexp : exp (el [[0]] 0 0 - el [[0]] 0 0) = 1).
  { unfold el. cbn [nth]. rewrite Rminus_diag. apply exp_0. }
  split; [exact Hexp|].
  cbn [out_pg_loss].
  assert (Hpg : spec_policy_loss (cliprange negative_cliprange_config) 1 1
                  [[1]] [[0]] [[0]] = -0.5).
  { unfold spec_policy_loss, mean_over, tab. cbn [seq map rsum fold_right].
    unfold spec_policy_term. cbv zeta. rewrite Hexp.
    unfold el, negative_cliprange_config, clamp. cbn [nth cliprange].
    rewrite (Rmax_right 1 (1 - -0.5)) by lra.
    rewrite (Rmin_right (1 - -0.5) (1 + -0.5)) by lra.
    rewrite Rmax_right by lra.
    cbn [Nat.mul Nat.add INR]. lra. }
  rewrite Hpg. split; [reflexivity|].
  unfold mean_over, tab, el. cbn [seq map rsum fold_right nth Nat.mul Nat.add INR].
  lra.
Qed.

Lemma spec_clipped_value_zero (new_value old_value : R) :
  spec_clipped_value 0 new_value old_value = old_value.
Proof.
  unfold spec_clipped_value.
  replace (old_value + 0) with old_value by ring.
  replace (old_value - 0) with old_value by ring.
  apply Rmax_right. apply Rmin_r.
Qed.

Lemma clip_by_value_tab2 (c : R) (B T : nat) (p o : nat -> nat -> R) :
  clip_by_value (tab2 B T p)
    (map (map (fun v => v - c)) (tab2 B T o))
    (map (map (fun v => v + c)) (tab2 B T o))
  = Ok (tab2 B T (fun b t => spec_clipped_value c (p b t) (o b t))).
Proof.
  unfold clip_by_value.
  repeat first [rewrite map2_tab2 | rewrite bcast2_tab2 | progress cbn [bind]].
  reflexivity.
Qed.

(** C3.  The value loss returned by [loss] is [0.5 * mean(max((new_value -
    returns)^2, (clipped_value - returns)^2))] with [clipped_value] the new
    value clipped to [old_value - cliprange_value, old_value +
    cliprange_value]; when [cliprange_value = 0] the clipped value is the
    old value at every entry, so the clipped term is [(old_value -
    returns)^2]. *)
Theorem value_loss_clipped (config : Config) (whiten : tensor2 -> tensor2)
  (policy : list (list Z) -> tensor2 * tensor2) (B T : nat)
  (q resp : list (list Z)) (old_logprob V Rw new_logprob new_value : tensor2) :
  batch_shaped B T q resp old_logprob V Rw ->
  (forall m, has_shape B T m -> has_shape B T (whiten m)) ->
  forward policy q resp = Ok (new_logprob, new_value) ->
  has_shape B T new_logprob -> has_shape B T new_value ->
  exists advantages returns out,
    gae config resp V Rw = Ok (advantages, returns) /\
    loss config whiten policy q resp old_logprob V Rw = Ok out /\
    out_vf_loss out
    = spec_value_loss (cliprange_value config) B T new_value V returns /\
    (cliprange_value config = 0 ->
     clip_by_value new_value
       (map (map (fun v => v - cliprange_value config)) V)
       (map (map (fun v => v + cliprange_value config)) V) = Ok V /\
     out_vf_loss out
     = 0.5 * mean_over B T (fun b t =>
         Rmax ((el new_value b t - el returns b t) ^ 2)
              ((el V b t - el returns b t) ^ 2))).
Proof.
  intros Hbatch Hwhiten Hfwd Hnl Hnv.
  destruct (loss_spec_ok config whiten policy B T q resp old_logprob V Rw
              new_logprob new_value Hbatch Hwhiten Hfwd Hnl Hnv)
    as (adv & ret & Hgae & Hloss).
  cbv zeta in Hloss.
  exists adv, ret. eexists. split; [exact Hgae|]. split; [exact Hloss|].
  cbn [out_vf_loss]. split; [reflexivity|].
  intros Hc. rewrite Hc.
  destruct Hbatch as (_ & _ & _ & _ & _ & HV & _).
  split.
  - pose proof (clip_by_value_tab2 0 B T (el new_value) (el V)) as Hclip.
    rewrite <- (has_shape_tab2 B T new_value Hnv) in Hclip.
    rewrite <- (has_shape_tab2 B T V HV) in Hclip.
    rewrite Hclip. f_equal.
    symmetry. etransitivity; [apply (has_shape_tab2 B T V HV)|].
    apply tab2_ext. intros b t _ _. symmetry.
    apply spec_clipped_value_zero.
  - unfold spec_value_loss. f_equal. apply mean_over_ext.
    intros b t _ _. unfold spec_value_term.
    rewrite spec_clipped_value_zero. reflexivity.
Qed.

Lemma value_loss_clipped_witness :
  exists advantages returns out,
    gae zero_cliprange_value_config [[7%Z]] [[1]] [[0]]
    = Ok (advantages, returns) /\
    loss zero_cliprange_value_config (fun m => m) example_policy
      [[1%Z]] [[7%Z]] [[0]] [[1]] [[0]] = Ok out /\
    out_vf_loss out
    = spec_value_loss (cliprange_value zero_cliprange_value_config) 1 1
        [[0]] [[1]] returns /\
    (cliprange_value zero_cliprange_value_config = 0 ->
     clip_by_value [[0]]
       (map (map (fun v =>
                    v - cliprange_value zero_cliprange_value_config)) [[1]])
       (map (map (fun v =>
                    v + cliprange_value zero_cliprange_value_config)) [[1]])
     = Ok [[1]] /\
     out_vf_loss out
     = 0.5 * mean_over 1 1 (fun b t =>
         Rmax ((el [[0]] b t - el returns b t) ^ 2)
              ((el [[1]] b t - el returns b t) ^ 2))).
Proof.
  apply (value_loss_clipped zero_cliprange_value_config (fun m => m)
           example_policy 1 1 [[1%Z]] [[7%Z]] [[0]] [[1]] [[0]]
           [[0]] [[0]]).
  - exact example_batch_shaped.
  - exact (identity_keeps_shape 1 1).
  - reflexivity.
  - apply example_shape_1_1.
  - apply example_shape_1_1.
Defined.

(* ------------------------------------------------------------------ *)
(** ** The KL controllers *)

Lemma np_clip_sign (x : R) :
  (0 < x -> 0 < AdaptiveKLController.np_clip x (-0.2) 0.2) /\
  (x < 0 -> AdaptiveKLController.np_clip x (-0.2) 0.2 < 0) /\
  (x = 0 -> AdaptiveKLController.np_clip x (-0.2) 0.2 = 0).
Proof.
  unfold AdaptiveKLController.np_clip, Rmin, Rmax.
  repeat destruct Rle_dec; repeat split; intros; lra.
Qed.

Lemma relative_error_sign (current target : R) :
  0 < target ->
  (target < current -> 0 < current / target - 1) /\
  (current < target -> current / target - 1 < 0) /\
  (current = target -> current / target - 1 = 0).
Proof.
  intros Ht.
  assert (E : current / target - 1 = (current - target) * / target)
    by (field; lra).
  assert (Hinv : 0 < / target) by (apply Rinv_0_lt_compat; exact Ht).
  rewrite E. repeat split; intros H.
  - apply Rmult_lt_0_compat; lra.
  - replace 0 with (0 * / target) by ring.
    apply Rmult_lt_compat_r; lra.
  - subst. ring.
Qed.

Lemma np_clip_bounds (x : R) :
  -0.2 <= AdaptiveKLController.np_clip x (-0.2) 0.2 <= 0.2 /\
  (0.2 <= x -> AdaptiveKLController.np_clip x (-0.2) 0.2 = 0.2) /\
  (x <= -0.2 -> AdaptiveKLController.np_clip x (-0.2) 0.2 = -0.2).
Proof.
  unfold AdaptiveKLController.np_clip, Rmin, Rmax.
  repeat destruct Rle_dec; repeat split; intros; lra.
Qed.

Lemma steps_over_horizon (n_steps horizon : R) :
  0 < horizon ->
  (0 <= n_steps -> 0 <= n_steps / horizon) /\
  (0.2 * n_steps < horizon -> 0.2 * (n_steps / horizon) < 1) /\
  (horizon <= 0.2 * n_steps -> 1 <= 0.2 * (n_steps / horizon)).
Proof.
  intros Hh.
  assert (Hinv : 0 < / horizon) by (apply Rinv_0_lt_compat; exact Hh).
  assert (E : 0.2 * (n_steps / horizon) = (0.2 * n_steps) * / horizon)
    by (unfold Rdiv; ring).
  assert (E1 : 1 = horizon * / horizon) by (field; lra).
  repeat split; intros H.
  - unfold Rdiv. apply Rmult_le_pos; lra.
  - rewrite E, E1. apply Rmult_lt_compat_r; assumption.
  - rewrite E, E1. apply Rmult_le_compat_r; lra.
Qed.

(** The result of [update] when neither division is by zero. *)
Lemma adaptive_update_value (c : AdaptiveKLController.t) (current n_steps : R) :
  AdaptiveKLController.target c <> 0 ->
  AdaptiveKLController.horizon c <> 0 ->
  AdaptiveKLController.update c current n_steps
  = Ok {| AdaptiveKLController.value :=
            AdaptiveKLController.value c
            * (1 + AdaptiveKLController.np_clip
                     (current / AdaptiveKLController.target c - 1) (-0.2) 0.2
                   * n_steps / AdaptiveKLController.horizon c);
          AdaptiveKLController.target := AdaptiveKLController.target c;
          AdaptiveKLController.horizon := AdaptiveKLController.horizon c |}.
Proof.
  intros Ht Hh. unfold AdaptiveKLController.update.
  destruct (Req_dec_T (AdaptiveKLController.target c) 0); [contradiction|].
  destruct (Req_dec_T (AdaptiveKLController.horizon c) 0); [contradiction|].
  reflexivity.
Qed.

(** C5, as amended.  An [update] call made when the value, the target,
    the horizon and [n_steps] are all positive multiplies the value by [1 +
    clip(current/target - 1, -0.2, 0.2) * n_steps / horizon]: the call
    strictly increases the value when [current > target], strictly
    decreases it when [current < target], and leaves it unchanged when
    [current = target].  The new value is positive again when [current >=
    target], and for any [current] when [0.2 * n_steps < horizon]; the
    target and the horizon are unchanged, so the same holds of the next
    call of a sequence made with the same arguments. *)
Theorem adaptive_update_monotone (c : AdaptiveKLController.t)
  (current n_steps : R) :
  0 < AdaptiveKLController.value c ->
  0 < AdaptiveKLController.target c ->
  0 < AdaptiveKLController.horizon c ->
  0 < n_steps ->
  exists c',
    AdaptiveKLController.update c current n_steps = Ok c' /\
    AdaptiveKLController.value c'
    = AdaptiveKLController.value c
      * (1 + AdaptiveKLController.np_clip
               (current / AdaptiveKLController.target c - 1) (-0.2) 0.2
             * n_steps / AdaptiveKLController.horizon c) /\
    AdaptiveKLController.target c' = AdaptiveKLController.target c /\
    AdaptiveKLController.horizon c' = AdaptiveKLController.horizon c /\
    (AdaptiveKLController.target c < current ->
     AdaptiveKLController.value c < AdaptiveKLController.value c') /\
    (current < AdaptiveKLController.target c ->
     AdaptiveKLController.value c' < AdaptiveKLController.value c) /\
    (current = AdaptiveKLController.target c ->
     AdaptiveKLController.value c' = AdaptiveKLController.value c) /\
    (AdaptiveKLController.target c <= current ->
     0 < AdaptiveKLController.value c') /\
    (0.2 * n_steps < AdaptiveKLController.horizon c ->
     0 < AdaptiveKLController.value c').
Proof.
  intros Hv Ht Hh Hn.
  rewrite adaptive_update_value by lra.
  eexists. split; [reflexivity|].
  cbn [AdaptiveKLController.value AdaptiveKLController.target
       AdaptiveKLController.horizon].
  split; [reflexivity|]. split; [reflexivity|]. split; [reflexivity|].
  set (x := current / AdaptiveKLController.target c - 1).
  set (e := AdaptiveKLController.np_clip x (-0.2) 0.2).
  destruct (relative_error_sign current _ Ht) as (Hx1 & Hx2 & Hx3).
  destruct (np_clip_sign x) as (He1 & He2 & He3).
  destruct (np_clip_bounds x) as ((Hlo & _) & _).
  fold x in Hx1, Hx2, Hx3. fold e in He1, He2, He3, Hlo.
  destruct (steps_over_horizon n_steps _ Hh) as (_ & Hk1 & _).
  assert (Hk : 0 < n_steps / AdaptiveKLController.horizon c)
    by (apply Rdiv_lt_0_compat; assumption).
  replace (e * n_steps / AdaptiveKLController.horizon c)
    with (e * (n_steps / AdaptiveKLController.horizon c))
    by (unfold Rdiv; ring).
  set (k := n_steps / AdaptiveKLController.horizon c) in *.
  assert (Hup : 0 < e -> AdaptiveKLController.value c
                         < AdaptiveKLController.value c * (1 + e * k)).
  { intros He.
    assert (0 < e * k) by (apply Rmult_lt_0_compat; assumption).
    assert (0 < AdaptiveKLController.value c * (e * k))
      by (apply Rmult_lt_0_compat; assumption).
    lra. }
  repeat split; intros H.
  - apply Hup, He1, Hx1, H.
  - specialize (He2 (Hx2 H)).
    assert (0 < (- e) * k) by (apply Rmult_lt_0_compat; lra).
    assert (0 < AdaptiveKLController.value c * ((- e) * k))
      by (apply Rmult_lt_0_compat; assumption).
    lra.
  - rewrite (He3 (Hx3 H)). ring.
  - destruct (Rle_lt_or_eq_dec _ _ H) as [Hlt | Heq].
    + specialize (Hup (He1 (Hx1 Hlt))). lra.
    + rewrite (He3 (Hx3 (eq_sym Heq))). lra.
  - specialize (Hk1 H).
    assert (0 <= (e + 0.2) * k) by (apply Rmult_le_pos; lra).
    apply Rmult_lt_0_compat; lra.
Qed.

Lemma adaptive_update_monotone_witness :
  let c := {| AdaptiveKLController.value := 0.2;
              AdaptiveKLController.target := 6;
              AdaptiveKLController.horizon := 10000 |} in
  exists c',
    AdaptiveKLController.update c 9 128 = Ok c' /\
    AdaptiveKLController.value c'
    = AdaptiveKLController.value c
      * (1 + AdaptiveKLController.np_clip
               (9 / AdaptiveKLController.target c - 1) (-0.2) 0.2
             * 128 / AdaptiveKLController.horizon c) /\
    AdaptiveKLController.target c' = AdaptiveKLController.target c /\
    AdaptiveKLController.horizon c' = AdaptiveKLController.horizon c /\
    (AdaptiveKLController.target c < 9 ->
     AdaptiveKLController.value c < AdaptiveKLController.value c') /\
    (9 < AdaptiveKLController.target c ->
     AdaptiveKLController.value c' < AdaptiveKLController.value c) /\
    (9 = AdaptiveKLController.target c ->
     AdaptiveKLController.value c' = AdaptiveKLController.value c) /\
    (AdaptiveKLController.target c <= 9 ->
     0 < AdaptiveKLController.value c') /\
    (0.2 * 128 < AdaptiveKLController.horizon c ->
     0 < AdaptiveKLController.value c').
Proof.
  apply (adaptive_update_monotone
           {| AdaptiveKLController.value := 0.2;
              AdaptiveKLController.target := 6;
              AdaptiveKLController.horizon := 10000 |} 9 128);
    cbn [AdaptiveKLController.value AdaptiveKLController.target
         AdaptiveKLController.horizon]; lra.
Defined.

(** C5, counterexample.  Two inputs with positive value, horizon and
    [n_steps].  With target [-1] and [current = 0] the observed value is
    above the target and [update] lowers the value from 1 to 0.8.  With
    value 0.2, target 6, horizon 10, [n_steps = 128] and [current = 0],
    below the target, the first call lowers the value to [-0.312] and the
    second call, with the same arguments, raises it to [0.48672]. *)
Lemma adaptive_update_monotone_counterexample :
  (let c := {| AdaptiveKLController.value := 1;
               AdaptiveKLController.target := -1;
               AdaptiveKLController.horizon := 1 |} in
   0 < AdaptiveKLController.value c /\
   0 < AdaptiveKLController.horizon c /\
   AdaptiveKLController.target c < 0 /\
   exists c',
     AdaptiveKLController.update c 0 1 = Ok c' /\
     AdaptiveKLController.value c' = 0.8 /\
     AdaptiveKLController.value c' < AdaptiveKLController.value c) /\
  (let c := {| AdaptiveKLController.value := 0.2;
               AdaptiveKLController.target := 6;
               AdaptiveKLController.horizon := 10 |} in
   0 < AdaptiveKLController.value c /\
   0 < AdaptiveKLController.horizon c /\
   0 < AdaptiveKLController.target c /\
   exists c1 c2,
     AdaptiveKLController.update c 0 128 = Ok c1 /\
     AdaptiveKLController.update c1 0 128 = Ok c2 /\
     adaptive_updates 2 c 0 128 = Ok c2 /\
     AdaptiveKLController.value c1 = -0.312 /\
     AdaptiveKLController.value c2 = 0.48672 /\
     AdaptiveKLController.value c1 < AdaptiveKLController.value c2).
Proof.
  split; cbv zeta;
    cbn [AdaptiveKLController.value AdaptiveKLController.target
         AdaptiveKLController.horizon];
    (split; [lra|]); (split; [lra|]); (split; [lra|]).
  - rewrite adaptive_update_value
      by (cbn [AdaptiveKLController.target AdaptiveKLController.horizon];
          lra).
    eexists. split; [reflexivity|].
    cbn [AdaptiveKLController.value AdaptiveKLController.target
         AdaptiveKLController.horizon].
    destruct (np_clip_bounds (0 / -1 - 1)) as (_ & _ & Hsat).
    rewrite Hsat by lra. split; lra.
  - destruct (np_clip_bounds (0 / 6 - 1)) as (_ & _ & Hsat).
    assert (Hclip : AdaptiveKLController.np_clip (0 / 6 - 1) (-0.2) 0.2
                    = -0.2) by (apply Hsat; lra).
    eexists. eexists.
    split; [rewrite adaptive_update_value
              by (cbn [AdaptiveKLController.target
                       AdaptiveKLController.horizon]; lra);
            reflexivity|].
    split; [rewrite adaptive_update_value
              by (cbn [AdaptiveKLController.target
                       AdaptiveKLController.horizon]; lra);
            reflexivity|].
    split.
    { cbn [adaptive_updates].
      rewrite adaptive_update_value
        by (cbn [AdaptiveKLController.target AdaptiveKLController.horizon];
            lra).
      cbn [bind].
      rewrite adaptive_update_value
        by (cbn [AdaptiveKLController.target AdaptiveKLController.horizon];
            lra).
      reflexivity. }
    cbn [AdaptiveKLController.value AdaptiveKLController.target
         AdaptiveKLController.horizon].
    rewrite Hclip. repeat split; lra.
Qed.

(** C6, as amended.  Constructing an Adaptive KL controller never fails:
    whatever the coefficient, target and horizon, [__init__] stores them
    unchanged; with a zero target it is the later [update] call that raises
    [ZeroDivisionError]. *)
Theorem adaptive_init_accepts_any (init_kl_coef target horizon : R) :
  AdaptiveKLController.init init_kl_coef target horizon
  = Ok {| AdaptiveKLController.value := init_kl_coef;
          AdaptiveKLController.target := target;
          AdaptiveKLController.horizon := horizon |} /\
  forall current n_steps,
    exists c,
      AdaptiveKLController.init init_kl_coef 0 horizon = Ok c /\
      AdaptiveKLController.update c current n_steps = Err ZeroDivisionError.
Proof.
  split; [reflexivity|].
  intros current n_steps. eexists. split; [reflexivity|].
  unfold AdaptiveKLController.update.
  cbn [AdaptiveKLController.target].
  destruct (Req_dec_T 0 0) as [_|E]; [reflexivity | contradiction E; reflexivity].
Qed.

(** C6, counterexample.  A zero target together with a negative horizon is
    accepted by the constructor, directly and through the controller choice
    of [AcceleratePPOModel.__init__]. *)
Lemma adaptive_init_invalid_counterexample :
  (exists c,
     AdaptiveKLController.init 0.2 0 (-1) = Ok c /\
     AdaptiveKLController.target c = 0 /\
     AdaptiveKLController.horizon c = -1) /\
  (exists k,
     make_kl_ctl
       {| gamma := 1; lam := 0.95; cliprange := 0.2; cliprange_value := 0.2;
          vf_coef := 2.3; init_kl_coef := 0.2; target := Some 0;
          horizon := -1; ppo_epochs := 4; num_rollouts := 128;
          batch_size := 128; eval_interval := 16; total_steps := 0;
          epochs := 0 |} = Ok k).
Proof.
  split.
  - eexists. split; [reflexivity|]. split; reflexivity.
  - eexists. reflexivity.
Qed.

(** C9.  Whatever the sequence of [update(current, n_steps)] calls, the
    Fixed KL controller keeps the coefficient it was constructed with. *)
Theorem fixed_update_noop (kl_coef : R) (calls : list (R * R)) :
  exists c,
    FixedKLController.init kl_coef = Ok c /\
    FixedKLController.value c = kl_coef /\
    exists c',
      foldM (fun self call =>
               FixedKLController.update self (fst call) (snd call)) calls c
      = Ok c' /\
      FixedKLController.value c' = kl_coef.
Proof.
  eexists. split; [reflexivity|]. split; [reflexivity|].
  induction calls as [|call calls IH].
  - eexists. split; reflexivity.
  - cbn [foldM]. unfold FixedKLController.update at 1. cbn [bind]. exact IH.
Qed.

(* ------------------------------------------------------------------ *)
(** ** The training loop *)

(** When [loss] returns, the mean KL it returns with is the one it had
    assigned at line 107. *)
Lemma recorded_mean_kl_of_loss (config : Config) (whiten : tensor2 -> tensor2)
  (policy : list (list Z) -> tensor2 * tensor2)
  (query_tensors response_tensors : list (list Z))
  (all_logprobs all_values all_rewards : tensor2) (out : LossOut) :
  loss config whiten policy query_tensors response_tensors
    all_logprobs all_values all_rewards = Ok out ->
  recorded_mean_kl config policy query_tensors response_tensors
    all_logprobs all_values all_rewards = Ok (out_mean_kl out).
Proof.
  unfold loss, recorded_mean_kl.
  destruct (gae config response_tensors all_values all_rewards)
    as [[advantages returns]|]; cbn [bind]; [|discriminate].
  destruct (forward policy query_tensors response_tensors)
    as [[logprob vpred]|]; cbn [bind]; [|discriminate].
  destruct (value_loss config vpred all_values returns);
    cbn [bind]; [|discriminate].
  destruct (bcast2 Rminus logprob all_logprobs) as [kl|];
    cbn [bind]; [|discriminate].
  destruct (mean1 (map rsum kl)); cbn [bind]; [|discriminate].
  destruct (policy_loss config (whiten advantages) kl);
    cbn [bind]; [|discriminate].
  intros H. injection H as <-. reflexivity.
Qed.

(** Case analysis on what a failing [loss] had assigned to [mean_kl]. *)
Ltac split_mean_kl :=
  match goal with
  | |- context [batch_mean_kl ?c ?P ?pi ?b ?p] =>
      destruct (batch_mean_kl c P pi b p)
  end.

Section LearnFacts.

Variable config : Config.
Variable whiten : tensor2 -> tensor2.
Variable Params : Type.
Variable policy_of : Params -> list (list Z) -> tensor2 * tensor2.
Variable optimise : Params -> Batch -> Params.
Variable is_main_process : bool.
Variable make_experience : Params -> R -> Z -> Z -> list Batch.

Local Abbreviation batch_loss := (batch_loss config whiten Params policy_of).
Local Abbreviation optimization_pass :=
  (optimization_pass config whiten Params policy_of optimise).
Local Abbreviation passes := (passes config whiten Params policy_of optimise).
Local Abbreviation post_backward_callback :=
  (post_backward_callback config Params is_main_process).
Local Abbreviation train_batch :=
  (train_batch config whiten Params policy_of optimise is_main_process).
Local Abbreviation for_each_batch :=
  (for_each_batch config whiten Params policy_of optimise is_main_process).
Local Abbreviation post_epoch_callback :=
  (post_epoch_callback config Params make_experience).
Local Abbreviation train_epoch :=
  (train_epoch config whiten Params policy_of optimise is_main_process
     make_experience).
Local Abbreviation keep_going := (keep_going config Params).
Local Abbreviation learn_loop :=
  (learn_loop config whiten Params policy_of optimise is_main_process
     make_experience).
Local Abbreviation learn :=
  (learn config whiten Params policy_of optimise is_main_process
     make_experience).
Local Abbreviation params_after := (params_after optimise).

(** What one pass that ends normally has done. *)
Lemma optimization_pass_done (batch : Batch) (s s' : Model Params) :
  optimization_pass batch s = Done s' ->
  exists out,
    batch_loss batch (params s) = Ok out /\
    params s' = optimise (params s) batch /\
    iter_count s' = (iter_count s + 1)%Z /\
    epoch s' = epoch s /\ kl_ctl s' = kl_ctl s /\ store s' = store s /\
    mean_kl s' = Some (out_mean_kl out) /\
    logs s' = Some (logs_of batch out) /\
    trace s' = trace s ++ pass_events batch out.
Proof.
  unfold optimization_pass. cbn [params emit].
  destruct (batch_loss batch (params s)) as [out|e];
    [|split_mean_kl; discriminate].
  intros H. injection H as <-. exists out.
  cbn. rewrite <- app_assoc. repeat split; reflexivity.
Qed.

Lemma optimization_pass_total (batch : Batch) (s : Model Params)
  (out : LossOut) :
  batch_loss batch (params s) = Ok out ->
  exists s', optimization_pass batch s = Done s'.
Proof.
  intros H. unfold optimization_pass. cbn [params emit].
  rewrite H. eexists. reflexivity.
Qed.

(** What [n] passes that end normally have done. *)
Lemma passes_done (batch : Batch) (n : nat) :
  forall s s1 : Model Params,
  passes n batch s = Done s1 ->
  exists outs,
    length outs = n /\
    (forall i out, nth_error outs i = Some out ->
       batch_loss batch (params_after batch i (params s)) = Ok out) /\
    params s1 = params_after batch n (params s) /\
    iter_count s1 = (iter_count s + Z.of_nat n)%Z /\
    epoch s1 = epoch s /\ kl_ctl s1 = kl_ctl s /\ store s1 = store s /\
    trace s1 = trace s ++ concat (map (pass_events batch) outs) /\
    ((1 <= n)%nat ->
     exists out, nth_error outs (n - 1) = Some out /\
       mean_kl s1 = Some (out_mean_kl out) /\
       logs s1 = Some (logs_of batch out)).
Proof.
  induction n as [|n IH]; intros s s1 H.
  - injection H as <-. exists []. cbn.
    rewrite app_nil_r, Z.add_0_r.
    repeat split; try reflexivity.
    + intros [|i] out Hi; discriminate.
    + intros Hn. lia.
  - cbn [passes] in H.
    destruct (optimization_pass batch s) as [s0|e s0|s0] eqn:Hpass;
      cbn [and_then] in H; try discriminate.
    destruct (optimization_pass_done batch s s0 Hpass)
      as (out0 & Hout0 & Hp0 & Hi0 & He0 & Hk0 & Hs0 & Hm0 & Hl0 & Ht0).
    destruct (IH s0 s1 H)
      as (outs & Hlen & Houts & Hp & Hi & He & Hk & Hs & Ht & Hlast).
    exists (out0 :: outs). cbn [length map concat params_after].
    rewrite Hlen. split; [reflexivity|]. split.
    { intros [|i] out Hnth; cbn [nth_error params_after] in *.
      - injection Hnth as <-. exact Hout0.
      - rewrite <- Hp0. apply Houts. exact Hnth. }
    rewrite Hp, Hp0, Hi, Hi0, He, He0, Hk, Hk0, Hs, Hs0, Ht, Ht0.
    rewrite <- app_assoc.
    repeat split; try reflexivity; try lia.
    intros _. destruct n as [|n].
    + destruct outs; [|discriminate]. exists out0.
      cbn [passes] in H. injection H as <-.
      repeat split; assumption.
    + destruct Hlast as (out & Hnth & Hm & Hl); [lia|].
      exists out. cbn [Nat.sub] in *. rewrite Nat.sub_0_r in *.
      repeat split; assumption.
Qed.

Lemma passes_total (batch : Batch) (n : nat) :
  forall s : Model Params,
  (forall i, (i < n)%nat ->
     exists out, batch_loss batch (params_after batch i (params s)) = Ok out) ->
  exists s1, passes n batch s = Done s1.
Proof.
  induction n as [|n IH]; intros s H.
  - eexists. reflexivity.
  - destruct (H 0%nat) as [out0 Hout0]; [lia|].
    cbn [params_after] in Hout0.
    destruct (optimization_pass_total batch s out0 Hout0) as [s0 Hs0].
    cbn [passes]. rewrite Hs0. cbn [and_then].
    apply IH. intros i Hi.
    destruct (optimization_pass_done batch s s0 Hs0)
      as (_ & _ & Hp0 & _).
    rewrite Hp0. apply (H (S i)). lia.
Qed.

Lemma kl_update_no_attribute_error (k : KLController) (current n_steps : R) :
  kl_update k current n_steps <> Err AttributeError.
Proof.
  destruct k as [c|c]; cbn [kl_update].
  - unfold AdaptiveKLController.update.
    destruct (Req_dec_T (AdaptiveKLController.target c) 0);
      [cbn; discriminate|].
    destruct (Req_dec_T (AdaptiveKLController.horizon c) 0);
      cbn; discriminate.
  - cbn. discriminate.
Qed.

(** Once [logs] and [mean_kl] are assigned, [post_backward_callback] calls
    the controller's [update] once, with the recorded mean KL and the batch
    size, whatever happens afterwards. *)
Lemma post_backward_callback_trace (s : Model Params) (lg : Logs) (kl : R) :
  logs s = Some lg -> mean_kl s = Some kl ->
  exists tail,
    trace (final (post_backward_callback s))
    = trace s ++ EvKLUpdate kl (IZR (batch_size config)) :: tail /\
    no_update_no_pass tail = true /\
    iter_count (final (post_backward_callback s)) = iter_count s /\
    epoch (final (post_backward_callback s)) = epoch s /\
    (forall s', post_backward_callback s <> Raised AttributeError s').
Proof.
  intros Hl Hm. unfold post_backward_callback. rewrite Hl, Hm.
  cbn [emit kl_ctl].
  pose proof (kl_update_no_attribute_error (kl_ctl s) kl
                (IZR (batch_size config))) as Hne.
  destruct (kl_update (kl_ctl s) kl (IZR (batch_size config))) as [k|e].
  - repeat match goal with
           | |- context [if ?c then _ else _] => destruct c
           end;
      eexists; cbn; rewrite <- ?app_assoc;
      (split; [reflexivity|]); repeat split; try reflexivity;
      discriminate.
  - exists []. cbn. repeat split; try reflexivity.
    intros s' H. injection H as -> _. apply Hne. reflexivity.
Qed.

Lemma post_backward_callback_done (s s' : Model Params) :
  post_backward_callback s = Done s' ->
  iter_count s' = iter_count s /\ epoch s' = epoch s.
Proof.
  unfold post_backward_callback.
  destruct (logs s) as [lg|]; [|discriminate].
  destruct (mean_kl s) as [kl|]; [|discriminate].
  cbn [emit kl_ctl].
  destruct (kl_update (kl_ctl s) kl (IZR (batch_size config))) as [k|e];
    [|discriminate].
  repeat match goal with
         | |- context [if ?c then _ else _] => destruct c
         end;
    try discriminate;
    intros H; injection H as <-; split; reflexivity.
Qed.

Lemma train_batch_done (batch : Batch) (s s' : Model Params) :
  train_batch batch s = Done s' ->
  epoch s' = epoch s /\ (iter_count s <= iter_count s')%Z.
Proof.
  unfold train_batch.
  destruct (passes (Z.to_nat (ppo_epochs config)) batch s)
    as [s1|e s1|s1] eqn:Hp; cbn [and_then]; try discriminate.
  destruct (post_backward_callback s1)
    as [s2|e s2|s2] eqn:Hb; cbn [and_then]; try discriminate.
  intros H. injection H as <-. cbn [emit epoch iter_count].
  destruct (passes_done batch _ s s1 Hp)
    as (outs & _ & _ & _ & Hi & He & _).
  destruct (post_backward_callback_done s1 s2 Hb) as [Hi2 He2].
  rewrite He2, He, Hi2, Hi. split; [reflexivity | lia].
Qed.

Lemma for_each_batch_done (batches : list Batch) :
  forall s s' : Model Params,
  for_each_batch batches s = Done s' ->
  epoch s' = epoch s /\ (iter_count s <= iter_count s')%Z.
Proof.
  induction batches as [|b rest IH]; intros s s' H.
  - injection H as <-. split; [reflexivity | lia].
  - cbn [for_each_batch] in H.
    destruct (train_batch b s) as [s1|e s1|s1] eqn:Hb;
      cbn [and_then] in H; try discriminate.
    destruct (train_batch_done b s s1 Hb) as [He1 Hi1].
    destruct (IH s1 s' H) as [He2 Hi2].
    rewrite He2, He1. split; [reflexivity | lia].
Qed.

(** An epoch that ends normally has incremented [epoch] by one, and ends
    with the store cleared and refilled and with the barrier. *)
Lemma train_epoch_done (s s' : Model Params) :
  train_epoch s = Done s' ->
  epoch s' = (epoch s + 1)%Z /\ (iter_count s <= iter_count s')%Z /\
  exists before,
    trace s'
    = before ++ [EvClearHistory;
                 EvMakeExperience (num_rollouts config) (iter_count s');
                 EvWaitForEveryone].
Proof.
  unfold train_epoch.
  destruct (for_each_batch (store s) s) as [s1|e s1|s1] eqn:Hb;
    cbn [and_then]; try discriminate.
  unfold post_epoch_callback. cbn [and_then].
  intros H. injection H as <-.
  destruct (for_each_batch_done _ s s1 Hb) as [He Hi].
  cbn. rewrite He. split; [reflexivity|]. split; [exact Hi|].
  exists (trace s1). rewrite <- !app_assoc. reflexivity.
Qed.

Lemma keep_going_spec (s : Model Params) :
  keep_going s = true <->
  (iter_count s < total_steps config)%Z \/ (epoch s <= epochs config)%Z.
Proof.
  unfold keep_going. rewrite orb_true_iff, Z.ltb_lt, Z.leb_le. reflexivity.
Qed.

Lemma learn_loop_done (fuel : nat) :
  forall s s' : Model Params,
  learn_loop fuel s = Done s' -> keep_going s' = false.
Proof.
  induction fuel as [|fuel IH]; intros s s' H; cbn [learn_loop] in H.
  - destruct (keep_going s) eqn:Hk; [discriminate|].
    injection H as <-. exact Hk.
  - destruct (keep_going s) eqn:Hk.
    + destruct (train_epoch s) as [s1|e s1|s1]; cbn [and_then] in H;
        try discriminate.
      apply (IH s1 s' H).
    + injection H as <-. exact Hk.
Qed.

Lemma no_update_no_pass_app (l1 l2 : list event) :
  no_update_no_pass l1 = true -> no_update_no_pass l2 = true ->
  no_update_no_pass (l1 ++ l2) = true.
Proof.
  unfold no_update_no_pass. intros H1 H2.
  rewrite forallb_app, H1, H2. reflexivity.
Qed.

(** After passes that ended normally with [logs] and [mean_kl] assigned,
    the rest of [train_batch] calls [update] once. *)
Lemma train_batch_after_passes (batch : Batch) (s s1 : Model Params)
  (lg : Logs) (kl : R) :
  passes (Z.to_nat (ppo_epochs config)) batch s = Done s1 ->
  logs s1 = Some lg -> mean_kl s1 = Some kl ->
  exists tail,
    trace (final (train_batch batch s))
    = trace s1 ++ EvKLUpdate kl (IZR (batch_size config)) :: tail /\
    no_update_no_pass tail = true /\
    iter_count (final (train_batch batch s)) = iter_count s1.
Proof.
  intros Hp Hl Hm. unfold train_batch. rewrite Hp. cbn [and_then].
  destruct (post_backward_callback_trace s1 lg kl Hl Hm)
    as (tail & Ht & Hn & Hi & _).
  destruct (post_backward_callback s1) as [s2|e s2|s2];
    cbn [and_then final] in *.
  - exists (tail ++ [EvWaitForEveryone]). cbn [emit trace iter_count].
    rewrite Ht, <- app_assoc. split; [reflexivity|].
    split; [|exact Hi].
    apply no_update_no_pass_app; [exact Hn | reflexivity].
  - exists tail. repeat split; assumption.
  - exists tail. repeat split; assumption.
Qed.

(** With no pass and [logs] unassigned, [train_batch] raises at the first
    statement of [post_backward_callback]. *)
Lemma train_batch_without_pass (batch : Batch) (s : Model Params) :
  (ppo_epochs config <= 0)%Z -> logs s = None ->
  train_batch batch s = Raised AttributeError s.
Proof.
  intros Hn Hl. unfold train_batch.
  replace (Z.to_nat (ppo_epochs config)) with 0%nat by lia.
  cbn [passes and_then]. unfold post_backward_callback. rewrite Hl.
  reflexivity.
Qed.

(** C7.  When [ppo_epochs >= 1] and no pass raises, [train_batch] runs
    exactly [ppo_epochs] passes over the same mini-batch, each at the
    weights the previous one left, each making the calls [loss],
    [zero_grad], [backward], [opt.step], [scheduler.step] and adding one to
    [iter_count]; then the controller's [update] is called exactly once,
    with the mean KL of the last pass and the configured batch size. *)
Theorem ppo_epochs_passes_then_one_kl_update (batch : Batch)
  (s : Model Params) :
  (1 <= ppo_epochs config)%Z ->
  (forall i, (i < Z.to_nat (ppo_epochs config))%nat ->
     exists out, batch_loss batch (params_after batch i (params s)) = Ok out) ->
  exists s1 outs last_out tail,
    passes (Z.to_nat (ppo_epochs config)) batch s = Done s1 /\
    Z.of_nat (length outs) = ppo_epochs config /\
    (forall i out, nth_error outs i = Some out ->
       batch_loss batch (params_after batch i (params s)) = Ok out) /\
    nth_error outs (length outs - 1) = Some last_out /\
    iter_count s1 = (iter_count s + ppo_epochs config)%Z /\
    trace s1 = trace s ++ concat (map (pass_events batch) outs) /\
    trace (final (train_batch batch s))
    = trace s1
      ++ EvKLUpdate (out_mean_kl last_out) (IZR (batch_size config)) :: tail /\
    no_update_no_pass tail = true /\
    iter_count (final (train_batch batch s))
    = (iter_count s + ppo_epochs config)%Z /\
    (forall s0 s0', optimization_pass batch s0 = Done s0' ->
       iter_count s0' = (iter_count s0 + 1)%Z).
Proof.
  intros Hn Hok.
  destruct (passes_total batch _ s Hok) as [s1 Hp].
  destruct (passes_done batch _ s s1 Hp)
    as (outs & Hlen & Houts & _ & Hi & _ & _ & _ & Ht & Hlast).
  destruct Hlast as (out & Hnth & Hm & Hl); [lia|].
  destruct (train_batch_after_passes batch s s1 _ _ Hp Hl Hm)
    as (tail & Htr & Hnone & Hit).
  exists s1, outs, out, tail.
  rewrite Hlen, Hit, Hi, Z2Nat.id by lia.
  repeat split; try assumption; try reflexivity.
  intros s0 s0' H0.
  destruct (optimization_pass_done batch s0 s0' H0) as (_ & _ & _ & H & _).
  exact H.
Qed.

(** C10.  With [ppo_epochs >= 1], when the passes over a mini-batch have
    ended, [mean_kl] and [logs] hold what the last pass assigned, and
    [post_backward_callback] does not fail on an unassigned attribute.  With
    [ppo_epochs <= 0] no pass runs: on a model whose [logs] was never
    assigned [train_batch] raises [AttributeError], and [learn], started on
    a freshly constructed model with at least one mini-batch, fails on the
    first mini-batch without any pass or controller update. *)
Theorem ppo_epochs_precondition :
  (forall batch (s s1 : Model Params),
     (1 <= ppo_epochs config)%Z ->
     passes (Z.to_nat (ppo_epochs config)) batch s = Done s1 ->
     exists out,
       batch_loss batch
         (params_after batch (Z.to_nat (ppo_epochs config) - 1) (params s))
       = Ok out /\
       mean_kl s1 = Some (out_mean_kl out) /\
       logs s1 = Some (logs_of batch out) /\
       forall s2, post_backward_callback s1 <> Raised AttributeError s2) /\
  (forall batch (s : Model Params),
     (ppo_epochs config <= 0)%Z -> logs s = None ->
     train_batch batch s = Raised AttributeError s) /\
  (forall (p : Params) batch rest fuel,
     (ppo_epochs config <= 0)%Z ->
     (0 < total_steps config)%Z \/ (0 <= epochs config)%Z ->
     exists s0,
       init_model config Params p (batch :: rest) = Ok s0 /\
       logs s0 = None /\ mean_kl s0 = None /\
       learn (S fuel) s0
       = Raised AttributeError
           (set_epoch 0 (set_iter_count 0 (emit [EvPrintStart] s0)))).
Proof.
  split; [|split].
  - intros batch s s1 Hn Hp.
    destruct (passes_done batch _ s s1 Hp)
      as (outs & Hlen & Houts & _ & _ & _ & _ & _ & _ & Hlast).
    destruct Hlast as (out & Hnth & Hm & Hl); [lia|].
    exists out. split; [apply Houts; exact Hnth|].
    split; [exact Hm|]. split; [exact Hl|].
    destruct (post_backward_callback_trace s1 _ _ Hl Hm)
      as (_ & _ & _ & _ & _ & H).
    exact H.
  - apply train_batch_without_pass.
  - intros p batch rest fuel Hn Hloop.
    unfold init_model.
    assert (Hk : exists k, make_kl_ctl config = Ok k).
    { unfold make_kl_ctl. destruct (target config); eexists; reflexivity. }
    destruct Hk as [k Hk]. rewrite Hk. cbn [bind].
    eexists. split; [reflexivity|]. split; [reflexivity|].
    split; [reflexivity|].
    unfold learn. cbn [learn_loop].
    assert (Hgo : forall s : Model Params,
              keep_going (set_epoch 0 (set_iter_count 0 s)) = true).
    { intros s. apply keep_going_spec. cbn. exact Hloop. }
    rewrite Hgo. unfold train_epoch. cbn [store set_epoch set_iter_count emit].
    cbn [for_each_batch].
    rewrite train_batch_without_pass by (exact Hn || reflexivity).
    reflexivity.
Qed.

(** C4.  The [while] loop of [learn] ends only in a state where both
    [iter_count >= total_steps] and [epoch > epochs]; while either bound is
    unmet it runs another epoch, and when both are met it stops.  With
    [total_steps = 0] and [epochs = 0], [learn] is exactly one run of the
    loop body: one epoch, after which [epoch] is 1 and the store has been
    cleared and refilled. *)
Theorem learn_loop_or_condition :
  (forall fuel (s s' : Model Params),
     learn_loop fuel s = Done s' ->
     (total_steps config <= iter_count s')%Z /\
     (epochs config < epoch s')%Z) /\
  (forall fuel (s : Model Params),
     (iter_count s < total_steps config)%Z \/ (epoch s <= epochs config)%Z ->
     learn_loop (S fuel) s = and_then (train_epoch s) (learn_loop fuel)) /\
  (forall fuel (s : Model Params),
     (total_steps config <= iter_count s)%Z ->
     (epochs config < epoch s)%Z ->
     learn_loop fuel s = Done s) /\
  (total_steps config = 0%Z -> epochs config = 0%Z ->
   forall fuel (s : Model Params),
     learn (S fuel) s
     = train_epoch (set_epoch 0 (set_iter_count 0 (emit [EvPrintStart] s))) /\
     forall s1,
       learn (S fuel) s = Done s1 ->
       epoch s1 = 1%Z /\
       exists before,
         trace s1
         = before ++ [EvClearHistory;
                      EvMakeExperience (num_rollouts config) (iter_count s1);
                      EvWaitForEveryone]).
Proof.
  assert (Hstop : forall fuel (s : Model Params),
            keep_going s = false -> learn_loop fuel s = Done s).
  { intros fuel s Hk. destruct fuel; cbn [learn_loop]; rewrite Hk;
      reflexivity. }
  assert (Hfalse : forall s : Model Params,
            (total_steps config <= iter_count s)%Z ->
            (epochs config < epoch s)%Z -> keep_going s = false).
  { intros s H1 H2. destruct (keep_going s) eqn:Hk; [|reflexivity].
    apply keep_going_spec in Hk. lia. }
  split; [|split; [|split]].
  - intros fuel s s' H. apply learn_loop_done in H.
    destruct (Z_lt_le_dec (iter_count s') (total_steps config)) as [Hlt|Hge].
    + assert (Hk : keep_going s' = true) by (apply keep_going_spec; lia).
      congruence.
    + destruct (Z_le_gt_dec (epoch s') (epochs config)) as [Hle|Hgt].
      * assert (Hk : keep_going s' = true) by (apply keep_going_spec; lia).
        congruence.
      * lia.
  - intros fuel s Hs. apply keep_going_spec in Hs.
    cbn [learn_loop]. rewrite Hs. reflexivity.
  - intros fuel s H1 H2. apply Hstop, Hfalse; assumption.
  - intros Hts Hep fuel s.
    set (s0 := set_epoch 0 (set_iter_count 0 (emit [EvPrintStart] s))).
    assert (Hlearn : learn (S fuel) s = train_epoch s0).
    { unfold learn. fold s0. cbn [learn_loop].
      assert (Hgo : keep_going s0 = true).
      { apply keep_going_spec. unfold s0. cbn. lia. }
      rewrite Hgo.
      destruct (train_epoch s0) as [s1|e s1|s1] eqn:He; cbn [and_then];
        try reflexivity.
      destruct (train_epoch_done s0 s1 He) as (He1 & Hi1 & _).
      apply Hstop, Hfalse.
      - unfold s0 in Hi1. cbn in Hi1. lia.
      - unfold s0 in He1. cbn in He1. lia. }
    split; [exact Hlearn|].
    intros s1 H1. rewrite Hlearn in H1.
    destruct (train_epoch_done s0 s1 H1) as (He1 & _ & Htr).
    split; [unfold s0 in He1; cbn in He1; lia | exact Htr].
Qed.

End LearnFacts.

(* ------------------------------------------------------------------ *)
(** ** Concrete runs *)

Lemma example_batch_loss_ok (p : unit) :
  exists out,
    batch_loss example_config (fun m => m) unit (fun _ => example_policy)
      example_batch p = Ok out.
Proof.
  destruct (loss_spec_ok example_config (fun m => m) example_policy 1 1
              [[1%Z]] [[7%Z]] [[0]] [[1]] [[0]] [[0]] [[0]]
              example_batch_shaped (identity_keeps_shape 1 1) eq_refl
              (example_shape_1_1 0) (example_shape_1_1 0))
    as (adv & ret & _ & Hloss).
  eexists. exact Hloss.
Qed.

Lemma ppo_epochs_passes_then_one_kl_update_witness :
  exists s1 outs last_out tail,
    passes example_config (fun m => m) unit (fun _ => example_policy)
      (fun p _ => p) (Z.to_nat (ppo_epochs example_config)) example_batch
      (example_model [example_batch]) = Done s1 /\
    Z.of_nat (length outs) = ppo_epochs example_config /\
    (forall i out, nth_error outs i = Some out ->
       batch_loss example_config (fun m => m) unit (fun _ => example_policy)
         example_batch
         (params_after (fun p _ => p) example_batch i
            (params (example_model [example_batch]))) = Ok out) /\
    nth_error outs (length outs - 1) = Some last_out /\
    iter_count s1
    = (iter_count (example_model [example_batch])
       + ppo_epochs example_config)%Z /\
    trace s1
    = trace (example_model [example_batch])
      ++ concat (map (pass_events example_batch) outs) /\
    trace (final (train_batch example_config (fun m => m) unit
                    (fun _ => example_policy) (fun p _ => p) true
                    example_batch (example_model [example_batch])))
    = trace s1
      ++ EvKLUpdate (out_mean_kl last_out)
           (IZR (batch_size example_config)) :: tail /\
    no_update_no_pass tail = true /\
    iter_count (final (train_batch example_config (fun m => m) unit
                         (fun _ => example_policy) (fun p _ => p) true
                         example_batch (example_model [example_batch])))
    = (iter_count (example_model [example_batch])
       + ppo_epochs example_config)%Z /\
    (forall s0 s0',
       optimization_pass example_config (fun m => m) unit
         (fun _ => example_policy) (fun p _ => p) example_batch s0 = Done s0' ->
       iter_count s0' = (iter_count s0 + 1)%Z).
Proof.
  apply (ppo_epochs_passes_then_one_kl_update example_config (fun m => m)
           unit (fun _ => example_policy) (fun p _ => p) true
           example_batch (example_model [example_batch])).
  - cbn. lia.
  - intros i _. apply example_batch_loss_ok.
Defined.

Lemma ppo_epochs_precondition_witness :
  exists s0,
    init_model zero_ppo_epochs_config unit tt [example_batch] = Ok s0 /\
    logs s0 = None /\ mean_kl s0 = None /\
    learn zero_ppo_epochs_config (fun m => m) unit (fun _ => example_policy)
      (fun p _ => p) true (fun _ _ _ _ => []) 1 s0
    = Raised AttributeError
        (set_epoch 0 (set_iter_count 0 (emit [EvPrintStart] s0))).
Proof.
  apply (proj2 (proj2 (ppo_epochs_precondition zero_ppo_epochs_config
                         (fun m => m) unit (fun _ => example_policy)
                         (fun p _ => p) true (fun _ _ _ _ => [])))
           tt example_batch [] 0%nat).
  - cbn. lia.
  - right. cbn. lia.
Defined.

Lemma learn_loop_or_condition_witness :
  learn example_config (fun m => m) unit (fun _ => example_policy)
    (fun p _ => p) true (fun _ _ _ _ => []) 1 (example_model [])
  = train_epoch example_config (fun m => m) unit (fun _ => example_policy)
      (fun p _ => p) true (fun _ _ _ _ => [])
      (set_epoch 0 (set_iter_count 0 (emit [EvPrintStart] (example_model []))))
  /\
  forall s1,
    learn example_config (fun m => m) unit (fun _ => example_policy)
      (fun p _ => p) true (fun _ _ _ _ => []) 1 (example_model []) = Done s1 ->
    epoch s1 = 1%Z /\
    exists before,
      trace s1
      = before ++ [EvClearHistory;
                   EvMakeExperience (num_rollouts example_config)
                     (iter_count s1);
                   EvWaitForEveryone].
Proof.
  apply (proj2 (proj2 (proj2 (learn_loop_or_condition example_config
                                (fun m => m) unit (fun _ => example_policy)
                                (fun p _ => p) true (fun _ _ _ _ => []))))
           eq_refl eq_refl 0%nat (example_model [])).
Defined.

(** A pass whose [loss] raises in the policy loss: the advantages have
    two columns and the KL three.  The mean KL, [-7], is already assigned;
    [self.logs] is not, and no optimizer call is made. *)
Example optimization_pass_raises_after_mean_kl :
  exists s',
    optimization_pass example_config (fun m => m) unit
      (fun _ => two_token_policy) (fun p _ => p) three_logprobs_batch
      (example_model [three_logprobs_batch]) = Raised RuntimeError s' /\
    mean_kl s' = Some (-7) /\ logs s' = None /\
    trace s' = [EvLoss three_logprobs_batch].
Proof.
  eexists. split; [reflexivity|].
  cbn. repeat split. f_equal. lra.
Qed.

(** With [total_steps = 0] and [epochs = 0] and an empty store, [learn]
    runs the loop body once and stops with [epoch = 1]. *)
Example learn_zero_bounds_run :
  exists s1,
    learn example_config (fun m => m) unit (fun _ => example_policy)
      (fun p _ => p) true (fun _ _ _ _ => []) 1 (example_model []) = Done s1 /\
    epoch s1 = 1%Z /\ iter_count s1 = 0%Z /\
    trace s1 = [EvPrintStart; EvClearHistory; EvMakeExperience 128 0;
                EvWaitForEveryone].
Proof.
  eexists. split; [reflexivity|]. repeat split; reflexivity.
Qed.


(* ------------------------------------------------------------------ *)
(** ** More on the Adaptive KL controller *)

(** X1.  One [update] call changes a non-negative coefficient by a factor
    between [1 - 0.2 * n_steps / horizon] and [1 + 0.2 * n_steps / horizon],
    whatever the observed KL; the upper factor is reached once [current /
    target >= 1.2] and the lower one once [current / target <= 0.8]. *)
Theorem adaptive_update_bounded (c : AdaptiveKLController.t)
  (current n_steps : R) :
  0 <= AdaptiveKLController.value c ->
  AdaptiveKLController.target c <> 0 ->
  0 < AdaptiveKLController.horizon c ->
  0 <= n_steps ->
  exists c',
    AdaptiveKLController.update c current n_steps = Ok c' /\
    AdaptiveKLController.value c
    * (1 - 0.2 * n_steps / AdaptiveKLController.horizon c)
    <= AdaptiveKLController.value c'
    <= AdaptiveKLController.value c
       * (1 + 0.2 * n_steps / AdaptiveKLController.horizon c) /\
    (1.2 <= current / AdaptiveKLController.target c ->
     AdaptiveKLController.value c'
     = AdaptiveKLController.value c
       * (1 + 0.2 * n_steps / AdaptiveKLController.horizon c)) /\
    (current / AdaptiveKLController.target c <= 0.8 ->
     AdaptiveKLController.value c'
     = AdaptiveKLController.value c
       * (1 - 0.2 * n_steps / AdaptiveKLController.horizon c)).
Proof.
  intros Hv Ht Hh Hn.
  rewrite adaptive_update_value by lra.
  eexists. split; [reflexivity|].
  cbn [AdaptiveKLController.value].
  set (x := current / AdaptiveKLController.target c - 1).
  destruct (np_clip_bounds x) as ((Hlo & Hhi) & Hsat_hi & Hsat_lo).
  set (e := AdaptiveKLController.np_clip x (-0.2) 0.2) in *.
  assert (Hk : 0 <= n_steps / AdaptiveKLController.horizon c).
  { unfold Rdiv. apply Rmult_le_pos; [exact Hn|].
    left. apply Rinv_0_lt_compat. exact Hh. }
  replace (e * n_steps / AdaptiveKLController.horizon c)
    with (e * (n_steps / AdaptiveKLController.horizon c))
    by (unfold Rdiv; ring).
  replace (0.2 * n_steps / AdaptiveKLController.horizon c)
    with (0.2 * (n_steps / AdaptiveKLController.horizon c))
    by (unfold Rdiv; ring).
  set (k := n_steps / AdaptiveKLController.horizon c) in *.
  set (v := AdaptiveKLController.value c) in *.
  assert (Hvk : 0 <= v * k) by (apply Rmult_le_pos; assumption).
  split; [split|split].
  - assert (0 <= (e + 0.2) * (v * k)) by (apply Rmult_le_pos; lra). lra.
  - assert (0 <= (0.2 - e) * (v * k)) by (apply Rmult_le_pos; lra). lra.
  - intros H. rewrite Hsat_hi by (unfold x; lra). reflexivity.
  - intros H. rewrite Hsat_lo by (unfold x; lra). f_equal. lra.
Qed.

Lemma adaptive_update_bounded_witness :
  let c := {| AdaptiveKLController.value := 0.2;
              AdaptiveKLController.target := 6;
              AdaptiveKLController.horizon := 10000 |} in
  exists c',
    AdaptiveKLController.update c 9 128 = Ok c' /\
    AdaptiveKLController.value c
    * (1 - 0.2 * 128 / AdaptiveKLController.horizon c)
    <= AdaptiveKLController.value c'
    <= AdaptiveKLController.value c
       * (1 + 0.2 * 128 / AdaptiveKLController.horizon c) /\
    (1.2 <= 9 / AdaptiveKLController.target c ->
     AdaptiveKLController.value c'
     = AdaptiveKLController.value c
       * (1 + 0.2 * 128 / AdaptiveKLController.horizon c)) /\
    (9 / AdaptiveKLController.target c <= 0.8 ->
     AdaptiveKLController.value c'
     = AdaptiveKLController.value c
       * (1 - 0.2 * 128 / AdaptiveKLController.horizon c)).
Proof.
  apply (adaptive_update_bounded
           {| AdaptiveKLController.value := 0.2;
              AdaptiveKLController.target := 6;
              AdaptiveKLController.horizon := 10000 |} 9 128);
    cbn [AdaptiveKLController.value AdaptiveKLController.target
         AdaptiveKLController.horizon]; lra.
Defined.

(** X2.  With a negative target the feedback is inverted: an observed KL
    above the target lowers a positive coefficient, one below the target
    raises it. *)
Theorem adaptive_update_negative_target (c : AdaptiveKLController.t)
  (current n_steps : R) :
  0 < AdaptiveKLController.value c ->
  AdaptiveKLController.target c < 0 ->
  0 < AdaptiveKLController.horizon c ->
  0 < n_steps ->
  exists c',
    AdaptiveKLController.update c current n_steps = Ok c' /\
    (AdaptiveKLController.target c < current ->
     AdaptiveKLController.value c' < AdaptiveKLController.value c) /\
    (current < AdaptiveKLController.target c ->
     AdaptiveKLController.value c < AdaptiveKLController.value c').
Proof.
  intros Hv Ht Hh Hn.
  rewrite adaptive_update_value by lra.
  eexists. split; [reflexivity|].
  cbn [AdaptiveKLController.value].
  set (tg := AdaptiveKLController.target c) in *.
  set (x := current / tg - 1).
  assert (E : x = (tg - current) * / (- tg))
    by (unfold x; field; lra).
  assert (Hinv : 0 < / (- tg)) by (apply Rinv_0_lt_compat; lra).
  destruct (np_clip_sign x) as (He1 & He2 & _).
  set (e := AdaptiveKLController.np_clip x (-0.2) 0.2) in *.
  assert (Hk : 0 < n_steps / AdaptiveKLController.horizon c)
    by (apply Rdiv_lt_0_compat; assumption).
  replace (e * n_steps / AdaptiveKLController.horizon c)
    with (e * (n_steps / AdaptiveKLController.horizon c))
    by (unfold Rdiv; ring).
  set (k := n_steps / AdaptiveKLController.horizon c) in *.
  set (v := AdaptiveKLController.value c) in *.
  split; intros H.
  - assert (Hx : x < 0).
    { rewrite E. replace 0 with (0 * / (- tg)) by ring.
      apply Rmult_lt_compat_r; lra. }
    specialize (He2 Hx).
    assert (0 < (- e) * k) by (apply Rmult_lt_0_compat; lra).
    assert (0 < v * ((- e) * k)) by (apply Rmult_lt_0_compat; assumption).
    lra.
  - assert (Hx : 0 < x).
    { rewrite E. apply Rmult_lt_0_compat; lra. }
    specialize (He1 Hx).
    assert (0 < e * k) by (apply Rmult_lt_0_compat; assumption).
    assert (0 < v * (e * k)) by (apply Rmult_lt_0_compat; assumption).
    lra.
Qed.

Lemma adaptive_update_negative_target_witness :
  let c := {| AdaptiveKLController.value := 1;
              AdaptiveKLController.target := -1;
              AdaptiveKLController.horizon := 1 |} in
  exists c',
    AdaptiveKLController.update c 0 1 = Ok c' /\
    (AdaptiveKLController.target c < 0 ->
     AdaptiveKLController.value c' < AdaptiveKLController.value c) /\
    (0 < AdaptiveKLController.target c ->
     AdaptiveKLController.value c < AdaptiveKLController.value c').
Proof.
  apply (adaptive_update_negative_target
           {| AdaptiveKLController.value := 1;
              AdaptiveKLController.target := -1;
              AdaptiveKLController.horizon := 1 |} 0 1);
    cbn [AdaptiveKLController.value AdaptiveKLController.target
         AdaptiveKLController.horizon]; lra.
Defined.

(** X3.  When [0.2 * n_steps < horizon] the multiplier of an [update] call
    is positive, whatever the observed KL, so the call returns normally and
    keeps the sign of the coefficient: a positive one stays positive, a
    zero one stays zero, a negative one stays negative. *)
Theorem adaptive_update_keeps_sign (c : AdaptiveKLController.t)
  (current n_steps : R) :
  AdaptiveKLController.target c <> 0 ->
  0 < AdaptiveKLController.horizon c ->
  0 <= n_steps ->
  0.2 * n_steps < AdaptiveKLController.horizon c ->
  exists c',
    AdaptiveKLController.update c current n_steps = Ok c' /\
    0 < 1 + AdaptiveKLController.np_clip
              (current / AdaptiveKLController.target c - 1) (-0.2) 0.2
            * n_steps / AdaptiveKLController.horizon c /\
    (0 < AdaptiveKLController.value c -> 0 < AdaptiveKLController.value c') /\
    (AdaptiveKLController.value c = 0 -> AdaptiveKLController.value c' = 0) /\
    (AdaptiveKLController.value c < 0 -> AdaptiveKLController.value c' < 0).
Proof.
  intros Ht Hh Hn Hsmall.
  rewrite adaptive_update_value by lra.
  eexists. split; [reflexivity|].
  cbn [AdaptiveKLController.value].
  set (x := current / AdaptiveKLController.target c - 1).
  destruct (np_clip_bounds x) as ((Hlo & Hhi) & _).
  set (e := AdaptiveKLController.np_clip x (-0.2) 0.2) in *.
  destruct (steps_over_horizon n_steps _ Hh) as (Hk0 & Hk1 & _).
  specialize (Hk0 Hn). specialize (Hk1 Hsmall).
  replace (e * n_steps / AdaptiveKLController.horizon c)
    with (e * (n_steps / AdaptiveKLController.horizon c))
    by (unfold Rdiv; ring).
  set (q := n_steps / AdaptiveKLController.horizon c) in *.
  assert (Hmult : 0 < 1 + e * q).
  { assert (0 <= (e + 0.2) * q) by (apply Rmult_le_pos; lra). lra. }
  split; [exact Hmult|].
  repeat split; intros H.
  - apply Rmult_lt_0_compat; assumption.
  - rewrite H. ring.
  - assert (0 < (- AdaptiveKLController.value c) * (1 + e * q))
      by (apply Rmult_lt_0_compat; lra).
    lra.
Qed.

Lemma adaptive_update_keeps_sign_witness :
  let c := {| AdaptiveKLController.value := 0.2;
              AdaptiveKLController.target := 6;
              AdaptiveKLController.horizon := 10000 |} in
  exists c',
    AdaptiveKLController.update c 1 128 = Ok c' /\
    0 < 1 + AdaptiveKLController.np_clip
              (1 / AdaptiveKLController.target c - 1) (-0.2) 0.2
            * 128 / AdaptiveKLController.horizon c /\
    (0 < AdaptiveKLController.value c -> 0 < AdaptiveKLController.value c') /\
    (AdaptiveKLController.value c = 0 -> AdaptiveKLController.value c' = 0) /\
    (AdaptiveKLController.value c < 0 -> AdaptiveKLController.value c' < 0).
Proof.
  apply (adaptive_update_keeps_sign
           {| AdaptiveKLController.value := 0.2;
              AdaptiveKLController.target := 6;
              AdaptiveKLController.horizon := 10000 |} 1 128);
    cbn [AdaptiveKLController.value AdaptiveKLController.target
         AdaptiveKLController.horizon]; lra.
Defined.

(** X4.  When [horizon <= 0.2 * n_steps] and the observed KL is at most
    [0.8 * target], one [update] call turns a positive coefficient into a
    non-positive one. *)
Theorem adaptive_update_turns_nonpositive (c : AdaptiveKLController.t)
  (current n_steps : R) :
  0 < AdaptiveKLController.value c ->
  0 < AdaptiveKLController.target c ->
  0 < AdaptiveKLController.horizon c ->
  AdaptiveKLController.horizon c <= 0.2 * n_steps ->
  current <= 0.8 * AdaptiveKLController.target c ->
  exists c',
    AdaptiveKLController.update c current n_steps = Ok c' /\
    AdaptiveKLController.value c' <= 0 /\
    AdaptiveKLController.value c'
    = AdaptiveKLController.value c
      * (1 - 0.2 * n_steps / AdaptiveKLController.horizon c).
Proof.
  intros Hv Ht Hh Hbig Hlow.
  rewrite adaptive_update_value by lra.
  eexists. split; [reflexivity|].
  cbn [AdaptiveKLController.value].
  set (tg := AdaptiveKLController.target c) in *.
  assert (Hx : current / tg - 1 <= -0.2).
  { assert (Hinv : 0 < / tg) by (apply Rinv_0_lt_compat; exact Ht).
    assert (E : 0.8 = (0.8 * tg) * / tg) by (field; lra).
    assert (current * / tg <= (0.8 * tg) * / tg)
      by (apply Rmult_le_compat_r; lra).
    unfold Rdiv. lra. }
  destruct (np_clip_bounds (current / tg - 1)) as (_ & _ & Hsat).
  rewrite (Hsat Hx).
  destruct (steps_over_horizon n_steps _ Hh) as (_ & _ & Hk).
  specialize (Hk Hbig).
  replace (-0.2 * n_steps / AdaptiveKLController.horizon c)
    with (- (0.2 * (n_steps / AdaptiveKLController.horizon c)))
    by (unfold Rdiv; lra).
  replace (0.2 * n_steps / AdaptiveKLController.horizon c)
    with (0.2 * (n_steps / AdaptiveKLController.horizon c))
    by (unfold Rdiv; lra).
  set (q := 0.2 * (n_steps / AdaptiveKLController.horizon c)) in *.
  split; [|f_equal; lra].
  assert (0 <= AdaptiveKLController.value c * (q - 1))
    by (apply Rmult_le_pos; lra).
  lra.
Qed.

Lemma adaptive_update_turns_nonpositive_witness :
  let c := {| AdaptiveKLController.value := 0.2;
              AdaptiveKLController.target := 6;
              AdaptiveKLController.horizon := 10 |} in
  exists c',
    AdaptiveKLController.update c 0 128 = Ok c' /\
    AdaptiveKLController.value c' <= 0 /\
    AdaptiveKLController.value c'
    = AdaptiveKLController.value c
      * (1 - 0.2 * 128 / AdaptiveKLController.horizon c).
Proof.
  apply (adaptive_update_turns_nonpositive
           {| AdaptiveKLController.value := 0.2;
              AdaptiveKLController.target := 6;
              AdaptiveKLController.horizon := 10 |} 0 128);
    cbn [AdaptiveKLController.value AdaptiveKLController.target
         AdaptiveKLController.horizon]; lra.
Defined.

(* ------------------------------------------------------------------ *)
(** ** More on the GAE loop *)

(** The recurrence at entry [b, t] of a well-shaped batch. *)
Lemma spec_advantage_unfold (config : Config) (B T : nat) (V Rw : tensor2)
  (b t : nat) :
  has_shape B T V -> has_shape B T Rw -> (b < B)%nat -> (t < T)%nat ->
  spec_advantage config V Rw b t
  = el Rw b t
    + gamma config * (if Nat.ltb t (T - 1) then el V b (S t) else 0)
    - el V b t
    + gamma config * lam config
      * (if Nat.eqb (S t) T then 0 else spec_advantage config V Rw b (S t)).
Proof.
  intros HV HR Hb Ht. unfold spec_advantage, el.
  pose proof (row_of_shape B T V b HV Hb) as HlV.
  pose proof (row_of_shape B T Rw b HR Hb) as HlR.
  rewrite spec_advantages_rec by (rewrite ?HlV, ?HlR; auto).
  rewrite HlV.
  destruct (Nat.eqb_spec (S t) T) as [E|E]; [|reflexivity].
  rewrite (nth_overflow (spec_advantages _ _ _ _) 0 (n := S t)).
  - reflexivity.
  - rewrite spec_advantages_length by (rewrite HlV, HlR; reflexivity).
    rewrite HlV. lia.
Qed.

(** X5.  At the last position the advantage is the reward minus the value
    and the return is the reward, whatever [gamma] and [lam]: nothing is
    bootstrapped past the end of the response. *)
Theorem gae_last_position (config : Config) (B T : nat)
  (resp : list (list Z)) (V Rw : tensor2) :
  (1 <= B)%nat -> (1 <= T)%nat ->
  has_shape B T resp -> has_shape B T V -> has_shape B T Rw ->
  exists advantages returns,
    gae config resp V Rw = Ok (advantages, returns) /\
    forall b, (b < B)%nat ->
      el advantages b (T - 1) = el Rw b (T - 1) - el V b (T - 1) /\
      el returns b (T - 1) = el Rw b (T - 1).
Proof.
  intros HB HT Hresp HV HR.
  eexists. eexists. split; [apply (gae_spec_ok config B T); assumption|].
  intros b Hb. rewrite !tab2_el by lia.
  rewrite (spec_advantage_unfold config B T V Rw b (T - 1)) by (auto; lia).
  rewrite Nat.ltb_irrefl.
  replace (Nat.eqb (S (T - 1)) T) with true
    by (symmetry; apply Nat.eqb_eq; lia).
  split; ring.
Qed.

Lemma gae_last_position_witness :
  exists advantages returns,
    gae example_config [[7%Z]] [[1]] [[0]] = Ok (advantages, returns) /\
    forall b, (b < 1)%nat ->
      el advantages b (1 - 1) = el [[0]] b (1 - 1) - el [[1]] b (1 - 1) /\
      el returns b (1 - 1) = el [[0]] b (1 - 1).
Proof.
  apply (gae_last_position example_config 1 1 [[7%Z]] [[1]] [[0]]);
    try lia; apply example_shape_1_1.
Defined.

(** X6.  With [lam = 0] the advantage is the one-step temporal-difference
    error [R[t] + gamma * V[t+1] - V[t]] (with [V[T] = 0]) and the return is
    [R[t] + gamma * V[t+1]]. *)
Theorem gae_lam_zero (config : Config) (B T : nat)
  (resp : list (list Z)) (V Rw : tensor2) :
  lam config = 0 ->
  (1 <= B)%nat -> (1 <= T)%nat ->
  has_shape B T resp -> has_shape B T V -> has_shape B T Rw ->
  exists advantages returns,
    gae config resp V Rw = Ok (advantages, returns) /\
    forall b t, (b < B)%nat -> (t < T)%nat ->
      let next_value := if Nat.ltb t (T - 1) then el V b (S t) else 0 in
      el advantages b t = el Rw b t + gamma config * next_value - el V b t /\
      el returns b t = el Rw b t + gamma config * next_value.
Proof.
  intros Hlam HB HT Hresp HV HR.
  eexists. eexists. split; [apply (gae_spec_ok config B T); assumption|].
  intros b t Hb Ht. cbv zeta. rewrite !tab2_el by lia.
  rewrite (spec_advantage_unfold config B T V Rw b t) by auto.
  rewrite Hlam. split; ring.
Qed.

Lemma gae_lam_zero_witness :
  let config :=
    {| gamma := 1; lam := 0; cliprange := 0.2; cliprange_value := 0.2;
       vf_coef := 2.3; init_kl_coef := 0.2; target := Some 6;
       horizon := 10000; ppo_epochs := 4; num_rollouts := 128;
       batch_size := 128; eval_interval := 16; total_steps := 0;
       epochs := 0 |} in
  exists advantages returns,
    gae config [[7%Z]] [[1]] [[0]] = Ok (advantages, returns) /\
    forall b t, (b < 1)%nat -> (t < 1)%nat ->
      let next_value := if Nat.ltb t (1 - 1) then el [[1]] b (S t) else 0 in
      el advantages b t
      = el [[0]] b t + gamma config * next_value - el [[1]] b t /\
      el returns b t = el [[0]] b t + gamma config * next_value.
Proof.
  apply (gae_lam_zero
           {| gamma := 1; lam := 0; cliprange := 0.2; cliprange_value := 0.2;
              vf_coef := 2.3; init_kl_coef := 0.2; target := Some 6;
              horizon := 10000; ppo_epochs := 4; num_rollouts := 128;
              batch_size := 128; eval_interval := 16; total_steps := 0;
              epochs := 0 |} 1 1 [[7%Z]] [[1]] [[0]]);
    try reflexivity; try lia; apply example_shape_1_1.
Defined.

(** With [gamma = lam = 1] advantage plus value is the sum of the rewards
    from the position on, on every suffix of a trajectory. *)
Lemma spec_advantages_undiscounted (V Rw : list R) :
  length V = length Rw ->
  forall t,
    nth t (spec_advantages 1 1 V Rw) 0 + nth t V 0 = rsum (skipn t Rw).
Proof.
  revert Rw. induction V as [|v V IH]; intros [|r Rw] Hlen t;
    simpl in Hlen; try discriminate.
  - destruct t; simpl; ring.
  - assert (Hlen' : length V = length Rw) by lia.
    destruct t as [|t].
    + cbn [spec_advantages nth skipn rsum fold_right].
      pose proof (IH Rw Hlen' 0%nat) as H0. cbn [skipn] in H0.
      rewrite !hd_nth0. unfold rsum in H0. lra.
    + cbn [spec_advantages nth skipn]. apply IH. exact Hlen'.
Qed.

(** X7.  With [gamma = 1] and [lam = 1] the return at a position is the sum
    of the rewards from that position to the end of the response,
    whatever the value estimates; the advantage is that sum minus the
    value. *)
Theorem gae_undiscounted_returns (config : Config) (B T : nat)
  (resp : list (list Z)) (V Rw : tensor2) :
  gamma config = 1 -> lam config = 1 ->
  (1 <= B)%nat -> (1 <= T)%nat ->
  has_shape B T resp -> has_shape B T V -> has_shape B T Rw ->
  exists advantages returns,
    gae config resp V Rw = Ok (advantages, returns) /\
    forall b t, (b < B)%nat -> (t < T)%nat ->
      el returns b t = rsum (skipn t (nth b Rw [])) /\
      el advantages b t = rsum (skipn t (nth b Rw [])) - el V b t.
Proof.
  intros Hg Hl HB HT Hresp HV HR.
  eexists. eexists. split; [apply (gae_spec_ok config B T); assumption|].
  intros b t Hb Ht. rewrite !tab2_el by lia.
  unfold spec_advantage. rewrite Hg, Hl.
  pose proof (spec_advantages_undiscounted (nth b V []) (nth b Rw [])) as H.
  rewrite (row_of_shape B T V b HV Hb), (row_of_shape B T Rw b HR Hb) in H.
  specialize (H eq_refl t). unfold el. split; lra.
Qed.

Lemma gae_undiscounted_returns_witness :
  exists advantages returns,
    gae undiscounted_config [[1; 2; 3]; [4; 5; 6]]%Z
      [[0; 0; 0]; [0; 0; 0]] [[1; 0; 0]; [0; 0; 1]]
    = Ok (advantages, returns) /\
    forall b t, (b < 2)%nat -> (t < 3)%nat ->
      el returns b t = rsum (skipn t (nth b [[1; 0; 0]; [0; 0; 1]] [])) /\
      el advantages b t
      = rsum (skipn t (nth b [[1; 0; 0]; [0; 0; 1]] []))
        - el [[0; 0; 0]; [0; 0; 0]] b t.
Proof.
  apply (gae_undiscounted_returns undiscounted_config 2 3);
    try reflexivity; try lia;
    (split; [reflexivity | repeat constructor]).
Defined.

Lemma col_too_short (B T' : nat) (m : tensor2) (t : nat) :
  (1 <= B)%nat -> has_shape B T' m -> (T' <= t)%nat ->
  col m t = Err IndexError.
Proof.
  intros HB [Hlen Hrows] Ht.
  destruct m as [|r m]; [simpl in Hlen; lia|].
  inversion Hrows as [|? ? Hr _]; subst.
  unfold col. cbn [mapM].
  replace (nth_error r t) with (@None R)
    by (symmetry; apply nth_error_None; exact Ht).
  reflexivity.
Qed.

(** X8.  A response of length zero makes [loss] raise: the loop over the
    positions does not run and [torch.stack] is given an empty list. *)
Theorem loss_empty_response (config : Config) (whiten : tensor2 -> tensor2)
  (policy : list (list Z) -> tensor2 * tensor2) (B : nat)
  (q resp : list (list Z)) (old_logprob V Rw : tensor2) :
  (1 <= B)%nat -> has_shape B 0 resp ->
  gae config resp V Rw = Err RuntimeError /\
  loss config whiten policy q resp old_logprob V Rw = Err RuntimeError.
Proof.
  intros HB H.
  assert (Hgae : gae config resp V Rw = Err RuntimeError).
  { unfold gae. rewrite (shape1_of_shape B 0 resp HB H). reflexivity. }
  split; [exact Hgae|]. unfold loss. rewrite Hgae. reflexivity.
Qed.

Lemma loss_empty_response_witness :
  gae example_config [[]; []] [[1]; [2]] [[0]; [0]] = Err RuntimeError /\
  loss example_config (fun m => m) example_policy [[1%Z]; [2%Z]] [[]; []]
    [[0]; [0]] [[1]; [2]] [[0]; [0]] = Err RuntimeError.
Proof.
  apply (loss_empty_response example_config (fun m => m) example_policy 2
           [[1%Z]; [2%Z]] [[]; []] [[0]; [0]] [[1]; [2]] [[0]; [0]]).
  - lia.
  - split; [reflexivity | repeat constructor].
Defined.

(** X9.  When the rewards, or the values, have fewer columns than the
    response has positions, [loss] raises [IndexError] at the first turn of
    the loop (the last position); nothing is truncated or padded. *)
Theorem loss_misaligned_columns (config : Config)
  (whiten : tensor2 -> tensor2)
  (policy : list (list Z) -> tensor2 * tensor2) (B T T' : nat)
  (q resp : list (list Z)) (old_logprob V Rw : tensor2) :
  (1 <= B)%nat -> (T' < T)%nat -> has_shape B T resp ->
  has_shape B T' Rw \/ (has_shape B T Rw /\ has_shape B T' V) ->
  gae config resp V Rw = Err IndexError /\
  loss config whiten policy q resp old_logprob V Rw = Err IndexError.
Proof.
  intros HB HT Hresp Hshort.
  assert (Hgae : gae config resp V Rw = Err IndexError).
  { unfold gae. rewrite (shape1_of_shape B T resp HB Hresp).
    destruct T as [|n]; [lia|].
    rewrite seq_S, rev_app_distr. cbn [rev app foldM Nat.add].
    unfold gae_step.
    replace (Nat.ltb n (S n - 1)) with false
      by (symmetry; apply Nat.ltb_ge; lia).
    cbn [bind].
    destruct Hshort as [HR | [HR HV]].
    - rewrite (col_too_short B T' Rw n HB HR) by lia. reflexivity.
    - rewrite (has_shape_tab2 B (S n) Rw HR) at 1.
      rewrite col_tab2 by lia. cbn [bind bscale vop].
      rewrite (col_too_short B T' V n HB HV) by lia. reflexivity. }
  split; [exact Hgae|]. unfold loss. rewrite Hgae. reflexivity.
Qed.

Lemma loss_misaligned_columns_witness :
  gae example_config [[7%Z; 8%Z]] [[1]] [[0; 0]] = Err IndexError /\
  loss example_config (fun m => m) example_policy [[1%Z]] [[7%Z; 8%Z]]
    [[0; 0]] [[1]] [[0; 0]] = Err IndexError.
Proof.
  apply (loss_misaligned_columns example_config (fun m => m) example_policy
           1 2 1 [[1%Z]] [[7%Z; 8%Z]] [[0; 0]] [[1]] [[0; 0]]).
  - lia.
  - lia.
  - split; [reflexivity | repeat constructor].
  - right. split; (split; [reflexivity | repeat constructor]).
Defined.

(* ------------------------------------------------------------------ *)
(** ** More on the two losses *)

Lemma rsum_le (n : nat) (f g : nat -> R) :
  (forall i, (i < n)%nat -> f i <= g i) -> rsum (tab n f) <= rsum (tab n g).
Proof.
  intros H. unfold tab.
  assert (Hin : forall i, In i (seq 0 n) -> f i <= g i)
    by (intros i Hi; apply in_seq in Hi; apply H; lia).
  clear H. induction (seq 0 n) as [|i l IH]; simpl; [lra|].
  assert (f i <= g i) by (apply Hin; left; reflexivity).
  assert (rsum (map f l) <= rsum (map g l))
    by (apply IH; intros j Hj; apply Hin; right; exact Hj).
  unfold rsum in *. lra.
Qed.

Lemma mean_over_le (B T : nat) (f g : nat -> nat -> R) :
  (1 <= B)%nat -> (1 <= T)%nat ->
  (forall b t, (b < B)%nat -> (t < T)%nat -> f b t <= g b t) ->
  mean_over B T f <= mean_over B T g.
Proof.
  intros HB HT H. unfold mean_over, Rdiv.
  apply Rmult_le_compat_r.
  - left. apply Rinv_0_lt_compat. apply lt_0_INR. nia.
  - apply rsum_le. intros b Hb. apply rsum_le. intros t Ht.
    apply H; assumption.
Qed.

Lemma mean_over_zero (B T : nat) : mean_over B T (fun _ _ => 0) = 0.
Proof.
  assert (Hz : forall n, rsum (tab n (fun _ => 0)) = 0).
  { intros n. unfold tab. induction (seq 0 n) as [|i l IH];
      cbn [map rsum fold_right]; [reflexivity|].
    fold (rsum (map (fun _ : nat => 0) l)). rewrite IH. ring. }
  unfold mean_over.
  rewrite (rsum_ext B _ (fun _ => 0)) by (intros b _; apply Hz).
  rewrite Hz. unfold Rdiv. ring.
Qed.

(** X10.  The value loss is non-negative and never below the plain
    squared-error loss [0.5 * mean((vpred - returns)^2)]; it is equal to it
    when every prediction lies within [cliprange_value] of the old value,
    where the clipping does nothing. *)
Theorem value_loss_bounds (config : Config) (B T : nat)
  (vpred V returns : tensor2) :
  (1 <= B)%nat -> (1 <= T)%nat ->
  has_shape B T vpred -> has_shape B T V -> has_shape B T returns ->
  exists vf,
    value_loss config vpred V returns = Ok vf /\
    0 <= vf /\
    0.5 * mean_over B T (fun b t => (el vpred b t - el returns b t) ^ 2)
    <= vf /\
    ((forall b t, (b < B)%nat -> (t < T)%nat ->
        el V b t - cliprange_value config <= el vpred b t
        <= el V b t + cliprange_value config) ->
     vf = 0.5 * mean_over B T (fun b t =>
                  (el vpred b t - el returns b t) ^ 2)).
Proof.
  intros HB HT Hp HV Hr.
  pose proof (value_loss_tab2 config B T (el vpred) (el V) (el returns)
                HB HT) as Hloss.
  rewrite <- (has_shape_tab2 B T vpred Hp) in Hloss.
  rewrite <- (has_shape_tab2 B T V HV) in Hloss.
  rewrite <- (has_shape_tab2 B T returns Hr) in Hloss.
  eexists. split; [exact Hloss|].
  assert (Hlow : mean_over B T (fun b t =>
                   (el vpred b t - el returns b t) ^ 2)
                 <= mean_over B T (fun b t =>
                      spec_value_term (cliprange_value config)
                        (el vpred b t) (el V b t) (el returns b t))).
  { apply mean_over_le; try assumption.
    intros b t _ _. unfold spec_value_term. apply Rmax_l. }
  assert (Hpos : 0 <= mean_over B T (fun b t =>
                        (el vpred b t - el returns b t) ^ 2)).
  { rewrite <- (mean_over_zero B T). apply mean_over_le; try assumption.
    intros b t _ _. apply pow2_ge_0. }
  split; [lra|]. split; [lra|].
  intros Hin. f_equal. apply mean_over_ext.
  intros b t Hb Ht. unfold spec_value_term, spec_clipped_value.
  destruct (Hin b t Hb Ht) as [H1 H2].
  rewrite (Rmin_left (el vpred b t)) by exact H2.
  rewrite (Rmax_left (el vpred b t)) by exact H1.
  apply Rmax_left. lra.
Qed.

Lemma value_loss_bounds_witness :
  exists vf,
    value_loss example_config [[0]] [[1]] [[0]] = Ok vf /\
    0 <= vf /\
    0.5 * mean_over 1 1 (fun b t => (el [[0]] b t - el [[0]] b t) ^ 2)
    <= vf /\
    ((forall b t, (b < 1)%nat -> (t < 1)%nat ->
        el [[1]] b t - cliprange_value example_config <= el [[0]] b t
        <= el [[1]] b t + cliprange_value example_config) ->
     vf = 0.5 * mean_over 1 1 (fun b t =>
                  (el [[0]] b t - el [[0]] b t) ^ 2)).
Proof.
  apply (value_loss_bounds example_config 1 1 [[0]] [[1]] [[0]]);
    try lia; apply example_shape_1_1.
Defined.

Lemma Rmax_opp_opp (x y : R) : Rmax (- x) (- y) = - Rmin x y.
Proof. unfold Rmax, Rmin. repeat destruct Rle_dec; lra. Qed.

Lemma clamp_inside (x lo hi : R) : lo <= x <= hi -> clamp x lo hi = x.
Proof.
  intros [H1 H2]. unfold clamp.
  rewrite Rmax_left by exact H1. apply Rmin_left. exact H2.
Qed.

(** X11.  The policy loss, a mean of the larger of the two negated terms,
    is the negated mean of the smaller of [advantage * ratio] and
    [advantage * clip(ratio)], the usual clipped surrogate; where every
    ratio lies in [1 - cliprange, 1 + cliprange] it is [- mean(advantage *
    ratio)]. *)
Theorem policy_loss_negated_min (config : Config) (B T : nat)
  (advantages kl : tensor2) :
  (1 <= B)%nat -> (1 <= T)%nat ->
  has_shape B T advantages -> has_shape B T kl ->
  exists pg,
    policy_loss config advantages kl = Ok pg /\
    pg = - mean_over B T (fun b t =>
             Rmin (el advantages b t * exp (el kl b t))
                  (el advantages b t
                   * clamp (exp (el kl b t)) (1 - cliprange config)
                       (1 + cliprange config))) /\
    ((forall b t, (b < B)%nat -> (t < T)%nat ->
        1 - cliprange config <= exp (el kl b t) <= 1 + cliprange config) ->
     pg = - mean_over B T (fun b t =>
              el advantages b t * exp (el kl b t))).
Proof.
  intros HB HT Ha Hk.
  pose proof (policy_loss_tab2 config B T (el advantages) (el kl) HB HT)
    as Hloss.
  rewrite <- (has_shape_tab2 B T advantages Ha) in Hloss.
  rewrite <- (has_shape_tab2 B T kl Hk) in Hloss.
  eexists. split; [exact Hloss|].
  assert (Hmin : mean_over B T (fun b t =>
                   Rmax (- el advantages b t * exp (el kl b t))
                        (- el advantages b t
                         * clamp (exp (el kl b t)) (1 - cliprange config)
                             (1 + cliprange config)))
                 = - mean_over B T (fun b t =>
                       Rmin (el advantages b t * exp (el kl b t))
                            (el advantages b t
                             * clamp (exp (el kl b t)) (1 - cliprange config)
                                 (1 + cliprange config)))).
  { rewrite <- mean_over_opp. apply mean_over_ext.
    intros b t _ _. rewrite <- Rmax_opp_opp. f_equal; ring. }
  split; [exact Hmin|].
  intros Hin. rewrite Hmin. f_equal. apply mean_over_ext.
  intros b t Hb Ht. rewrite clamp_inside by (apply Hin; assumption).
  apply Rmin_left. lra.
Qed.

Lemma policy_loss_negated_min_witness :
  exists pg,
    policy_loss example_config [[1]] [[0]] = Ok pg /\
    pg = - mean_over 1 1 (fun b t =>
             Rmin (el [[1]] b t * exp (el [[0]] b t))
                  (el [[1]] b t
                   * clamp (exp (el [[0]] b t)) (1 - cliprange example_config)
                       (1 + cliprange example_config))) /\
    ((forall b t, (b < 1)%nat -> (t < 1)%nat ->
        1 - cliprange example_config <= exp (el [[0]] b t)
        <= 1 + cliprange example_config) ->
     pg = - mean_over 1 1 (fun b t => el [[1]] b t * exp (el [[0]] b t))).
Proof.
  apply (policy_loss_negated_min example_config 1 1 [[1]] [[0]]);
    try lia; apply example_shape_1_1.
Defined.

Lemma rsum_zero (n : nat) (f : nat -> R) :
  (forall i, (i < n)%nat -> f i = 0) -> rsum (tab n f) = 0.
Proof.
  intros H. rewrite (rsum_ext n f (fun _ => 0) H).
  unfold tab. induction (seq 0 n) as [|i l IH];
    cbn [map rsum fold_right]; [reflexivity|].
  fold (rsum (map (fun _ : nat => 0) l)). rewrite IH. ring.
Qed.

(** X12.  The mean KL that [loss] records is the per-sequence sum of
    [new_logprob - old_logprob] averaged over the batch; it is 0 when the
    forward pass returns the log-probabilities of the rollout. *)
Theorem loss_mean_kl (config : Config) (whiten : tensor2 -> tensor2)
  (policy : list (list Z) -> tensor2 * tensor2) (B T : nat)
  (q resp : list (list Z)) (old_logprob V Rw new_logprob new_value : tensor2) :
  batch_shaped B T q resp old_logprob V Rw ->
  (forall m, has_shape B T m -> has_shape B T (whiten m)) ->
  forward policy q resp = Ok (new_logprob, new_value) ->
  has_shape B T new_logprob -> has_shape B T new_value ->
  exists out,
    loss config whiten policy q resp old_logprob V Rw = Ok out /\
    out_mean_kl out
    = rsum (tab B (fun b => rsum (tab T (fun t =>
        el new_logprob b t - el old_logprob b t)))) / INR B /\
    ((forall b t, (b < B)%nat -> (t < T)%nat ->
        el new_logprob b t = el old_logprob b t) ->
     out_mean_kl out = 0).
Proof.
  intros Hbatch Hwhiten Hfwd Hnl Hnv.
  destruct (loss_spec_ok config whiten policy B T q resp old_logprob V Rw
              new_logprob new_value Hbatch Hwhiten Hfwd Hnl Hnv)
    as (adv & ret & _ & Hloss).
  cbv zeta in Hloss. eexists. split; [exact Hloss|].
  cbn [out_mean_kl]. split; [reflexivity|].
  intros Hsame. rewrite rsum_zero; [unfold Rdiv; ring|].
  intros b Hb. apply rsum_zero. intros t Ht.
  rewrite (Hsame b t Hb Ht). ring.
Qed.

Lemma loss_mean_kl_witness :
  exists out,
    loss example_config (fun m => m) example_policy
      [[1%Z]] [[7%Z]] [[0]] [[1]] [[0]] = Ok out /\
    out_mean_kl out
    = rsum (tab 1 (fun b => rsum (tab 1 (fun t =>
        el [[0]] b t - el [[0]] b t)))) / INR 1 /\
    ((forall b t, (b < 1)%nat -> (t < 1)%nat ->
        el [[0]] b t = el [[0]] b t) ->
     out_mean_kl out = 0).
Proof.
  apply (loss_mean_kl example_config (fun m => m) example_policy 1 1
           [[1%Z]] [[7%Z]] [[0]] [[1]] [[0]] [[0]] [[0]]).
  - exact example_batch_shaped.
  - exact (identity_keeps_shape 1 1).
  - reflexivity.
  - apply example_shape_1_1.
  - apply example_shape_1_1.
Defined.

(* ------------------------------------------------------------------ *)
(** ** Invariants of [learn] *)

Section LearnInvariants.

Variable config : Config.
Variable whiten : tensor2 -> tensor2.
Variable Params : Type.
Variable policy_of : Params -> list (list Z) -> tensor2 * tensor2.
Variable optimise : Params -> Batch -> Params.
Variable is_main_process : bool.
Variable make_experience : Params -> R -> Z -> Z -> list Batch.

Local Abbreviation batch_loss := (batch_loss config whiten Params policy_of).
Local Abbreviation optimization_pass :=
  (optimization_pass config whiten Params policy_of optimise).
Local Abbreviation passes := (passes config whiten Params policy_of optimise).
Local Abbreviation post_backward_callback :=
  (post_backward_callback config Params is_main_process).
Local Abbreviation train_batch :=
  (train_batch config whiten Params policy_of optimise is_main_process).
Local Abbreviation for_each_batch :=
  (for_each_batch config whiten Params policy_of optimise is_main_process).
Local Abbreviation post_epoch_callback :=
  (post_epoch_callback config Params make_experience).
Local Abbreviation train_epoch :=
  (train_epoch config whiten Params policy_of optimise is_main_process
     make_experience).
Local Abbreviation keep_going := (keep_going config Params).
Local Abbreviation learn_loop :=
  (learn_loop config whiten Params policy_of optimise is_main_process
     make_experience).
Local Abbreviation learn :=
  (learn config whiten Params policy_of optimise is_main_process
     make_experience).
Local Abbreviation params_after := (params_after optimise).

Lemma final_and_then (P : Model Params -> Prop) (o : outcome Params)
  (k : Model Params -> outcome Params) :
  P (final o) -> (forall s, o = Done s -> P (final (k s))) ->
  P (final (and_then o k)).
Proof.
  intros Ho Hk. destruct o as [s|e s|s]; cbn [and_then].
  - apply Hk. reflexivity.
  - exact Ho.
  - exact Ho.
Qed.

(** A property of the state that every piece of [learn] keeps, in whatever
    way the piece ends, holds in the state [learn] ends in. *)
Section Invariant.

Variable P : Model Params -> Prop.
Hypothesis P_pass : forall b s, P s -> P (final (optimization_pass b s)).
Hypothesis P_post_backward :
  forall s, P s -> P (final (post_backward_callback s)).
Hypothesis P_wait : forall s, P s -> P (emit [EvWaitForEveryone] s).
Hypothesis P_post_epoch : forall s, P s -> P (final (post_epoch_callback s)).

Lemma passes_invariant (n : nat) (b : Batch) :
  forall s, P s -> P (final (passes n b s)).
Proof.
  induction n as [|n IH]; intros s Hs; [exact Hs|].
  cbn [passes]. apply final_and_then.
  - apply P_pass. exact Hs.
  - intros s1 H1. apply IH.
    change s1 with (final (Done s1)). rewrite <- H1. apply P_pass. exact Hs.
Qed.

Lemma train_batch_invariant (b : Batch) (s : Model Params) :
  P s -> P (final (train_batch b s)).
Proof.
  intros Hs. unfold train_batch.
  assert (Hp := passes_invariant (Z.to_nat (ppo_epochs config)) b s Hs).
  apply final_and_then; [exact Hp|].
  intros s1 H1. rewrite H1 in Hp. cbn [final] in Hp.
  assert (Hb := P_post_backward s1 Hp).
  apply final_and_then; [exact Hb|].
  intros s2 H2. rewrite H2 in Hb. cbn [final] in *. apply P_wait. exact Hb.
Qed.

Lemma for_each_batch_invariant (batches : list Batch) :
  forall s, P s -> P (final (for_each_batch batches s)).
Proof.
  induction batches as [|b rest IH]; intros s Hs; [exact Hs|].
  cbn [for_each_batch].
  assert (Hb := train_batch_invariant b s Hs).
  apply final_and_then; [exact Hb|].
  intros s1 H1. rewrite H1 in Hb. apply IH. exact Hb.
Qed.

Lemma train_epoch_invariant (s : Model Params) :
  P s -> P (final (train_epoch s)).
Proof.
  intros Hs. unfold train_epoch.
  assert (Hb := for_each_batch_invariant (store s) s Hs).
  apply final_and_then; [exact Hb|].
  intros s1 H1. rewrite H1 in Hb. cbn [final] in Hb.
  assert (He := P_post_epoch s1 Hb).
  apply final_and_then; [exact He|].
  intros s2 H2. rewrite H2 in He. cbn [final] in *. apply P_wait. exact He.
Qed.

Lemma learn_loop_invariant (fuel : nat) :
  forall s, P s -> P (final (learn_loop fuel s)).
Proof.
  induction fuel as [|fuel IH]; intros s Hs; cbn [learn_loop].
  - destruct (keep_going s); exact Hs.
  - destruct (keep_going s); [|exact Hs].
    assert (He := train_epoch_invariant s Hs).
    apply final_and_then; [exact He|].
    intros s1 H1. rewrite H1 in He. apply IH. exact He.
Qed.

End Invariant.

Ltac split_post_backward s :=
  unfold post_backward_callback;
  destruct (logs s) as [?lg|]; [|cbn [final]];
  [destruct (mean_kl s) as [?kl|]; [|cbn [final]];
   [cbn [emit kl_ctl];
    match goal with
    | |- context [kl_update ?a ?b ?c] =>
        let Hup := fresh "Hup" in
        destruct (kl_update a b c) as [?k|?e] eqn:Hup
    end;
    repeat match goal with
           | |- context [if ?c then _ else _] => destruct c eqn:?
           end;
    cbn [final]| ]| ].

Lemma count_events_app (p : event -> bool) (l1 l2 : list event) :
  count_events p (l1 ++ l2) = (count_events p l1 + count_events p l2)%nat.
Proof. unfold count_events. rewrite filter_app, length_app. reflexivity. Qed.

Lemma same_controller_refl (k : KLController) : same_controller k k.
Proof. destruct k; cbn; auto. Qed.

Lemma kl_update_same_controller (k0 k k' : KLController) (current n_steps : R) :
  same_controller k0 k -> kl_update k current n_steps = Ok k' ->
  same_controller k0 k'.
Proof.
  destruct k0 as [c0|c0], k as [c|c]; cbn [same_controller kl_update];
    try contradiction.
  - intros [Ht Hh]. unfold AdaptiveKLController.update.
    destruct (Req_dec_T (AdaptiveKLController.target c) 0); [discriminate|].
    destruct (Req_dec_T (AdaptiveKLController.horizon c) 0); [discriminate|].
    cbn [bind]. intros H. injection H as <-. cbn. split; assumption.
  - intros ->. cbn. intros H. injection H as <-. reflexivity.
Qed.

(** X13.  Whatever [learn] does and however it ends, the controller keeps
    its class: a Fixed controller is left exactly as it was, and an
    Adaptive one keeps its target and horizon (only its value moves). *)
Theorem learn_keeps_controller (fuel : nat) (s : Model Params) :
  (forall c, kl_ctl s = Fixed c ->
     kl_ctl (final (learn fuel s)) = Fixed c) /\
  (forall c, kl_ctl s = Adaptive c ->
     exists c',
       kl_ctl (final (learn fuel s)) = Adaptive c' /\
       AdaptiveKLController.target c' = AdaptiveKLController.target c /\
       AdaptiveKLController.horizon c' = AdaptiveKLController.horizon c).
Proof.
  assert (H : same_controller (kl_ctl s) (kl_ctl (final (learn fuel s)))).
  { unfold learn.
    apply (learn_loop_invariant
             (fun s' => same_controller (kl_ctl s) (kl_ctl s'))).
    - intros b s1 H1. unfold optimization_pass. cbn [emit params].
      destruct (batch_loss b (params s1)); [|split_mean_kl];
      exact H1.
    - intros s1 H1. split_post_backward s1;
        cbn [kl_ctl set_kl_ctl emit]; try exact H1;
        eapply kl_update_same_controller; eassumption.
    - intros s1 H1. exact H1.
    - intros s1 H1. exact H1.
    - apply same_controller_refl. }
  destruct (kl_ctl s) as [c0|c0],
    (kl_ctl (final (learn fuel s))) as [c1|c1];
    cbn [same_controller] in H; try contradiction; split; intros c Hc;
    try discriminate; injection Hc as <-.
  - exists c1. destruct H as [Ht Hh]. repeat split; assumption.
  - rewrite H. reflexivity.
Qed.

(** X14.  [iter_count] counts the optimizer steps: in the state [learn]
    ends in, however it ends, [iter_count] is the number of [opt.step]
    calls made since [learn] was entered. *)
Theorem learn_iter_count_is_opt_steps (fuel : nat) (s : Model Params) :
  Z.of_nat (count_events is_opt_step (trace (final (learn fuel s))))
  = (Z.of_nat (count_events is_opt_step (trace s))
     + iter_count (final (learn fuel s)))%Z.
Proof.
  unfold learn.
  apply (learn_loop_invariant
           (fun s' => Z.of_nat (count_events is_opt_step (trace s'))
                      = (Z.of_nat (count_events is_opt_step (trace s))
                         + iter_count s')%Z)).
  - intros b s1 H1. unfold optimization_pass. cbn [emit params].
    destruct (batch_loss b (params s1)); [|split_mean_kl];
      cbn [final];
      cbn [trace iter_count set_iter_count set_params emit set_logs
           set_mean_kl];
      rewrite !count_events_app; cbn; lia.
  - intros s1 H1. split_post_backward s1;
      cbn [trace iter_count set_kl_ctl emit];
      rewrite ?count_events_app; cbn; lia.
  - intros s1 H1. cbn [trace iter_count emit].
    rewrite count_events_app. cbn. lia.
  - intros s1 H1. unfold post_epoch_callback.
    cbn [final trace iter_count set_store set_epoch emit].
    rewrite !count_events_app. cbn. lia.
  - cbn [trace iter_count set_epoch set_iter_count emit].
    rewrite count_events_app. cbn. lia.
Qed.

(** X15.  A process that is not the main one never evaluates: [learn] adds
    no evaluation to the trace, however it ends. *)
Theorem learn_evaluates_on_main_process_only (fuel : nat) (s : Model Params) :
  is_main_process = false ->
  count_events is_eval (trace (final (learn fuel s)))
  = count_events is_eval (trace s).
Proof.
  intros Hmain. unfold learn.
  apply (learn_loop_invariant
           (fun s' => count_events is_eval (trace s')
                      = count_events is_eval (trace s))).
  - intros b s1 H1. unfold optimization_pass. cbn [emit params].
    destruct (batch_loss b (params s1)); [|split_mean_kl];
      cbn [final];
      cbn [trace set_iter_count set_params emit set_logs set_mean_kl];
      rewrite !count_events_app; cbn; lia.
  - intros s1 H1. unfold post_backward_callback. rewrite Hmain.
    destruct (logs s1); [|exact H1].
    destruct (mean_kl s1); [|exact H1].
    cbn [emit kl_ctl].
    match goal with
    | |- context [kl_update ?a ?b ?c] => destruct (kl_update a b c)
    end; cbn [final trace set_kl_ctl emit];
      rewrite count_events_app; cbn; lia.
  - intros s1 H1. cbn [trace emit].
    rewrite count_events_app. cbn. lia.
  - intros s1 H1. unfold post_epoch_callback.
    cbn [final trace set_store set_epoch emit].
    rewrite !count_events_app. cbn. lia.
  - cbn [trace set_epoch set_iter_count emit].
    rewrite count_events_app. cbn. lia.
Qed.

End LearnInvariants.

(* ------------------------------------------------------------------ *)
(** ** Evaluation, and how long [learn] runs *)

Section LearnRuns.

Variable config : Config.
Variable whiten : tensor2 -> tensor2.
Variable Params : Type.
Variable policy_of : Params -> list (list Z) -> tensor2 * tensor2.
Variable optimise : Params -> Batch -> Params.
Variable is_main_process : bool.
Variable make_experience : Params -> R -> Z -> Z -> list Batch.

Local Abbreviation batch_loss := (batch_loss config whiten Params policy_of).
Local Abbreviation optimization_pass :=
  (optimization_pass config whiten Params policy_of optimise).
Local Abbreviation passes := (passes config whiten Params policy_of optimise).
Local Abbreviation post_backward_callback :=
  (post_backward_callback config Params is_main_process).
Local Abbreviation train_batch :=
  (train_batch config whiten Params policy_of optimise is_main_process).
Local Abbreviation for_each_batch :=
  (for_each_batch config whiten Params policy_of optimise is_main_process).
Local Abbreviation post_epoch_callback :=
  (post_epoch_callback config Params make_experience).
Local Abbreviation train_epoch :=
  (train_epoch config whiten Params policy_of optimise is_main_process
     make_experience).
Local Abbreviation keep_going := (keep_going config Params).
Local Abbreviation learn_loop :=
  (learn_loop config whiten Params policy_of optimise is_main_process
     make_experience).
Local Abbreviation learn :=
  (learn config whiten Params policy_of optimise is_main_process
     make_experience).
Local Abbreviation params_after := (params_after optimise).

(** The passes over a mini-batch when none raises: the state they leave. *)
Lemma passes_then_state (batch : Batch) (s : Model Params) :
  (1 <= ppo_epochs config)%Z ->
  (forall i, (i < Z.to_nat (ppo_epochs config))%nat ->
     exists out, batch_loss batch (params_after batch i (params s)) = Ok out) ->
  exists s1 out,
    passes (Z.to_nat (ppo_epochs config)) batch s = Done s1 /\
    batch_loss batch
      (params_after batch (Z.to_nat (ppo_epochs config) - 1) (params s))
    = Ok out /\
    mean_kl s1 = Some (out_mean_kl out) /\
    logs s1 = Some (logs_of batch out) /\
    iter_count s1 = (iter_count s + ppo_epochs config)%Z /\
    kl_ctl s1 = kl_ctl s.
Proof.
  intros Hn Hok.
  destruct (passes_total config whiten Params policy_of optimise
              batch _ s Hok) as [s1 Hp].
  destruct (passes_done config whiten Params policy_of optimise
              batch _ s s1 Hp)
    as (outs & Hlen & Houts & _ & Hi & _ & Hk & _ & _ & Hlast).
  destruct Hlast as (out & Hnth & Hm & Hl); [lia|].
  exists s1, out. rewrite Hi, Z2Nat.id by lia.
  repeat split; try assumption. apply Houts. exact Hnth.
Qed.

(** X16.  On the main process, when the passes and the controller update
    succeed and [eval_interval] is not 0, the mini-batch ends normally and
    an evaluation is logged exactly when the new [iter_count] is a multiple
    of [eval_interval] or is at most [ppo_epochs]; in particular always on
    the first mini-batch.  The record carries the losses of the last pass
    and the coefficient as already updated. *)
Theorem train_batch_evaluation (batch : Batch) (s : Model Params) :
  is_main_process = true ->
  eval_interval config <> 0%Z ->
  (1 <= ppo_epochs config)%Z ->
  (forall i, (i < Z.to_nat (ppo_epochs config))%nat ->
     exists out, batch_loss batch (params_after batch i (params s)) = Ok out) ->
  (forall kl, exists k,
     kl_update (kl_ctl s) kl (IZR (batch_size config)) = Ok k) ->
  exists s1 out k s',
    passes (Z.to_nat (ppo_epochs config)) batch s = Done s1 /\
    mean_kl s1 = Some (out_mean_kl out) /\
    logs s1 = Some (logs_of batch out) /\
    kl_update (kl_ctl s) (out_mean_kl out) (IZR (batch_size config)) = Ok k /\
    train_batch batch s = Done s' /\
    kl_ctl s' = k /\
    iter_count s' = (iter_count s + ppo_epochs config)%Z /\
    trace s'
    = trace s1
      ++ [EvKLUpdate (out_mean_kl out) (IZR (batch_size config))]
      ++ (if Z.eqb ((iter_count s + ppo_epochs config)
                    mod eval_interval config) 0
             || Z.leb (iter_count s + ppo_epochs config) (ppo_epochs config)
          then [EvEval (iter_count s + ppo_epochs config) (out_pg_loss out)
                  (out_vf_loss out) (kl_value k)]
          else [])
      ++ [EvWaitForEveryone] /\
    ((iter_count s <= 0)%Z ->
     Z.eqb ((iter_count s + ppo_epochs config) mod eval_interval config) 0
     || Z.leb (iter_count s + ppo_epochs config) (ppo_epochs config) = true).
Proof.
  intros Hmain Hev Hn Hok Hupd.
  destruct (passes_then_state batch s Hn Hok)
    as (s1 & out & Hp & _ & Hm & Hl & Hi & Hk).
  destruct (Hupd (out_mean_kl out)) as [k Hkup].
  set (updated := set_kl_ctl k
                    (emit [EvKLUpdate (out_mean_kl out)
                             (IZR (batch_size config))] s1)).
  set (cond := Z.eqb ((iter_count s + ppo_epochs config)
                      mod eval_interval config) 0
               || Z.leb (iter_count s + ppo_epochs config)
                    (ppo_epochs config)).
  assert (Htb : train_batch batch s
                = Done (emit [EvWaitForEveryone]
                          (if cond
                           then emit [EvEval (iter_count s + ppo_epochs config)
                                        (out_pg_loss out) (out_vf_loss out)
                                        (kl_value k)] updated
                           else updated))).
  { unfold train_batch. rewrite Hp. cbn [and_then].
    unfold post_backward_callback. rewrite Hl, Hm, Hmain.
    cbn [emit kl_ctl]. rewrite Hk, Hkup.
    replace (Z.eqb (eval_interval config) 0) with false
      by (symmetry; apply Z.eqb_neq; exact Hev).
    fold updated.
    assert (Hiu : iter_count updated = (iter_count s + ppo_epochs config)%Z)
      by (unfold updated; cbn; exact Hi).
    rewrite Hiu. fold cond.
    destruct cond; reflexivity. }
  exists s1, out, k. eexists.
  split; [exact Hp|]. split; [exact Hm|]. split; [exact Hl|].
  split; [exact Hkup|]. split; [exact Htb|].
  destruct cond eqn:Hcond; cbn; rewrite <- ?app_assoc, ?Hi;
    repeat split; try reflexivity.
  intros H0. unfold cond in Hcond.
  apply orb_false_iff in Hcond. destruct Hcond as [_ Hle].
  apply Z.leb_gt in Hle. lia.
Qed.

(** X17.  With [eval_interval = 0] the main process fails on the modulo of
    [post_backward_callback]: the mini-batch ends in [ZeroDivisionError]
    after its [ppo_epochs] optimizer steps and after the controller update,
    with no evaluation. *)
Theorem train_batch_zero_eval_interval (batch : Batch) (s : Model Params) :
  is_main_process = true ->
  eval_interval config = 0%Z ->
  (1 <= ppo_epochs config)%Z ->
  (forall i, (i < Z.to_nat (ppo_epochs config))%nat ->
     exists out, batch_loss batch (params_after batch i (params s)) = Ok out) ->
  (forall kl, exists k,
     kl_update (kl_ctl s) kl (IZR (batch_size config)) = Ok k) ->
  exists s1 out k s',
    passes (Z.to_nat (ppo_epochs config)) batch s = Done s1 /\
    mean_kl s1 = Some (out_mean_kl out) /\
    kl_update (kl_ctl s) (out_mean_kl out) (IZR (batch_size config)) = Ok k /\
    train_batch batch s = Raised ZeroDivisionError s' /\
    kl_ctl s' = k /\
    iter_count s' = (iter_count s + ppo_epochs config)%Z /\
    trace s'
    = trace s1 ++ [EvKLUpdate (out_mean_kl out) (IZR (batch_size config))].
Proof.
  intros Hmain Hev Hn Hok Hupd.
  destruct (passes_then_state batch s Hn Hok)
    as (s1 & out & Hp & _ & Hm & Hl & Hi & Hk).
  destruct (Hupd (out_mean_kl out)) as [k Hkup].
  exists s1, out, k. eexists.
  split; [exact Hp|]. split; [exact Hm|]. split; [exact Hkup|].
  unfold train_batch. rewrite Hp. cbn [and_then].
  unfold post_backward_callback. rewrite Hl, Hm, Hmain.
  cbn [emit kl_ctl]. rewrite Hk, Hkup, Hev.
  cbn [Z.eqb and_then]. split; [reflexivity|].
  cbn. rewrite Hi. repeat split; reflexivity.
Qed.

(** Only the [while] loop can run out of fuel. *)
Lemma train_epoch_not_out_of_fuel (s s' : Model Params) :
  train_epoch s <> OutOfFuel s'.
Proof.
  assert (Hand : forall (o : outcome Params) k,
            (forall x, o <> OutOfFuel x) ->
            (forall y x, k y <> OutOfFuel x) ->
            forall x, and_then o k <> OutOfFuel x).
  { intros o k Ho Hk x. destruct o as [y|e y|y]; cbn [and_then].
    - apply Hk.
    - discriminate.
    - exfalso. apply (Ho y). reflexivity. }
  assert (Hpass : forall b y x, optimization_pass b y <> OutOfFuel x).
  { intros b y x. unfold optimization_pass. cbn [emit params].
    destruct (batch_loss b (params y)); [|split_mean_kl]; discriminate. }
  assert (Hpasses : forall n b y x, passes n b y <> OutOfFuel x).
  { induction n as [|n IH]; intros b y x; cbn [passes]; [discriminate|].
    apply Hand; [apply Hpass | intros; apply IH]. }
  assert (Hpost : forall y x, post_backward_callback y <> OutOfFuel x).
  { intros y x. unfold post_backward_callback.
    destruct (logs y); [|discriminate].
    destruct (mean_kl y); [|discriminate].
    cbn [emit kl_ctl].
    match goal with
    | |- context [kl_update ?a ?b ?c] => destruct (kl_update a b c)
    end; [|discriminate].
    repeat match goal with
           | |- context [if ?c then _ else _] => destruct c
           end; discriminate. }
  assert (Hbatch : forall b y x, train_batch b y <> OutOfFuel x).
  { intros b y x. unfold train_batch.
    apply Hand; [apply Hpasses|]. intros y1 x1.
    apply Hand; [apply Hpost|]. intros; discriminate. }
  assert (Hbatches : forall l y x, for_each_batch l y <> OutOfFuel x).
  { induction l as [|b l IH]; intros y x; cbn [for_each_batch];
      [discriminate|].
    apply Hand; [apply Hbatch | intros; apply IH]. }
  unfold train_epoch. apply Hand; [apply Hbatches|]. intros y1 x1.
  apply Hand; [intros; discriminate | intros; discriminate].
Qed.

Lemma learn_loop_epochs (fuel : nat) :
  forall s : Model Params,
  (total_steps config <= 0)%Z -> (0 <= iter_count s)%Z ->
  (Z.to_nat (epochs config + 1 - epoch s) <= fuel)%nat ->
  (forall s', learn_loop fuel s <> OutOfFuel s') /\
  (forall s', learn_loop fuel s = Done s' ->
     epoch s' = Z.max (epoch s) (epochs config + 1)).
Proof.
  induction fuel as [|fuel IH]; intros s Hts Hi Hfuel; cbn [learn_loop].
  - destruct (keep_going s) eqn:Hk.
    + apply keep_going_spec in Hk. lia.
    + split; [discriminate|]. intros s' H. injection H as <-.
      destruct (Z.le_gt_cases (epoch s) (epochs config)) as [Hle|Hgt].
      * assert (keep_going s = true) by (apply keep_going_spec; lia).
        congruence.
      * lia.
  - destruct (keep_going s) eqn:Hk.
    + apply keep_going_spec in Hk.
      assert (Hle : (epoch s <= epochs config)%Z) by lia.
      destruct (train_epoch s) as [s1|e s1|s1] eqn:He; cbn [and_then].
      * destruct (train_epoch_done config whiten Params policy_of optimise
                    is_main_process make_experience s s1 He)
          as (He1 & Hi1 & _).
        destruct (IH s1) as [Hoof Hdone]; try lia.
        split; [exact Hoof|].
        intros s' H. rewrite (Hdone s' H). lia.
      * split; discriminate.
      * exfalso. apply (train_epoch_not_out_of_fuel s s1). exact He.
    + split; [discriminate|]. intros s' H. injection H as <-.
      destruct (Z.le_gt_cases (epoch s) (epochs config)) as [Hle|Hgt].
      * assert (keep_going s = true) by (apply keep_going_spec; lia).
        congruence.
      * lia.
Qed.

(** X18.  With [total_steps <= 0] the step bound is met from the start, and
    [learn] stops after exactly [epochs + 1] epochs (none when [epochs <
    0]) unless an epoch raises: it never needs more loop turns than that,
    and when it returns [epoch] is [max 0 (epochs + 1)]. *)
Theorem learn_runs_epochs_plus_one (fuel : nat) (s : Model Params) :
  (total_steps config <= 0)%Z ->
  (Z.to_nat (epochs config + 1) <= fuel)%nat ->
  (forall s', learn fuel s <> OutOfFuel s') /\
  (forall s', learn fuel s = Done s' ->
     epoch s' = Z.max 0 (epochs config + 1)).
Proof.
  intros Hts Hfuel. unfold learn.
  apply (learn_loop_epochs fuel
           (set_epoch 0 (set_iter_count 0 (emit [EvPrintStart] s)))).
  - exact Hts.
  - cbn. lia.
  - cbn [epoch set_epoch]. rewrite Z.sub_0_r. exact Hfuel.
Qed.

Lemma learn_loop_empty_store (fuel : nat) :
  (0 < total_steps config)%Z ->
  (forall p k n i, make_experience p k n i = []) ->
  forall s : Model Params,
  iter_count s = 0%Z -> store s = [] ->
  exists s',
    learn_loop fuel s = OutOfFuel s' /\
    iter_count s' = 0%Z /\ epoch s' = (epoch s + Z.of_nat fuel)%Z.
Proof.
  intros Hts Hmake.
  induction fuel as [|fuel IH]; intros s Hi Hs; cbn [learn_loop].
  - replace (keep_going s) with true
      by (symmetry; apply keep_going_spec; lia).
    exists s. repeat split; [exact Hi | lia].
  - replace (keep_going s) with true
      by (symmetry; apply keep_going_spec; lia).
    unfold train_epoch, post_epoch_callback. rewrite Hs.
    cbn [for_each_batch and_then].
    match goal with
    | |- exists s', learn_loop fuel ?s1 = _ /\ _ =>
        destruct (IH s1) as (s' & Hrun & Hi' & He')
    end.
    + cbn. exact Hi.
    + cbn. apply Hmake.
    + exists s'. split; [exact Hrun|]. split; [exact Hi'|].
      rewrite He'. cbn. lia.
Qed.

(** X19.  [learn] does not end when [total_steps > 0] while the store is
    empty and the rollout collection keeps yielding no mini-batch: no
    optimizer step is ever made, [iter_count] stays 0, and after any number
    of epochs the loop is still running. *)
Theorem learn_empty_store_never_ends (fuel : nat) (s : Model Params) :
  (0 < total_steps config)%Z ->
  (forall p k n i, make_experience p k n i = []) ->
  store s = [] ->
  exists s',
    learn fuel s = OutOfFuel s' /\
    iter_count s' = 0%Z /\ epoch s' = Z.of_nat fuel.
Proof.
  intros Hts Hmake Hs. unfold learn.
  destruct (learn_loop_empty_store fuel Hts Hmake
              (set_epoch 0 (set_iter_count 0 (emit [EvPrintStart] s))))
    as (s' & Hrun & Hi & He).
  - reflexivity.
  - exact Hs.
  - exists s'. split; [exact Hrun|]. split; [exact Hi|].
    rewrite He. cbn. lia.
Qed.

End LearnRuns.

(* ------------------------------------------------------------------ *)
(** ** Concrete runs, continued *)

Lemma example_batch_loss_ok_any (config : Config) (p : unit) :
  exists out,
    batch_loss config (fun m => m) unit (fun _ => example_policy)
      example_batch p = Ok out.
Proof.
  destruct (loss_spec_ok config (fun m => m) example_policy 1 1
              [[1%Z]] [[7%Z]] [[0]] [[1]] [[0]] [[0]] [[0]]
              example_batch_shaped (identity_keeps_shape 1 1) eq_refl
              (example_shape_1_1 0) (example_shape_1_1 0))
    as (adv & ret & _ & Hloss).
  eexists. exact Hloss.
Qed.

Lemma example_model_update_ok (rollouts : list Batch) (kl n_steps : R) :
  exists k, kl_update (kl_ctl (example_model rollouts)) kl n_steps = Ok k.
Proof.
  cbn [kl_ctl example_model kl_update].
  rewrite adaptive_update_value
    by (cbn [AdaptiveKLController.target AdaptiveKLController.horizon]; lra).
  eexists. reflexivity.
Qed.

Lemma learn_evaluates_on_main_process_only_witness :
  count_events is_eval
    (trace (final (learn example_config (fun m => m) unit
                     (fun _ => example_policy) (fun p _ => p) false
                     (fun _ _ _ _ => []) 1 (example_model [example_batch]))))
  = count_events is_eval (trace (example_model [example_batch])).
Proof.
  apply (learn_evaluates_on_main_process_only example_config (fun m => m) unit
           (fun _ => example_policy) (fun p _ => p) false
           (fun _ _ _ _ => []) 1 (example_model [example_batch])).
  reflexivity.
Defined.

Lemma train_batch_evaluation_witness :
  let s := example_model [example_batch] in
  exists s1 out k s',
    passes example_config (fun m => m) unit (fun _ => example_policy)
      (fun p _ => p) (Z.to_nat (ppo_epochs example_config)) example_batch s
    = Done s1 /\
    mean_kl s1 = Some (out_mean_kl out) /\
    logs s1 = Some (logs_of example_batch out) /\
    kl_update (kl_ctl s) (out_mean_kl out) (IZR (batch_size example_config))
    = Ok k /\
    train_batch example_config (fun m => m) unit (fun _ => example_policy)
      (fun p _ => p) true example_batch s = Done s' /\
    kl_ctl s' = k /\
    iter_count s' = (iter_count s + ppo_epochs example_config)%Z /\
    trace s'
    = trace s1
      ++ [EvKLUpdate (out_mean_kl out) (IZR (batch_size example_config))]
      ++ (if Z.eqb ((iter_count s + ppo_epochs example_config)
                    mod eval_interval example_config) 0
             || Z.leb (iter_count s + ppo_epochs example_config)
                  (ppo_epochs example_config)
          then [EvEval (iter_count s + ppo_epochs example_config)
                  (out_pg_loss out) (out_vf_loss out) (kl_value k)]
          else [])
      ++ [EvWaitForEveryone] /\
    ((iter_count s <= 0)%Z ->
     Z.eqb ((iter_count s + ppo_epochs example_config)
            mod eval_interval example_config) 0
     || Z.leb (iter_count s + ppo_epochs example_config)
          (ppo_epochs example_config) = true).
Proof.
  apply (train_batch_evaluation example_config (fun m => m) unit
           (fun _ => example_policy) (fun p _ => p) true
           example_batch (example_model [example_batch])).
  - reflexivity.
  - cbn. discriminate.
  - cbn. lia.
  - intros i _. apply example_batch_loss_ok_any.
  - intros kl. apply example_model_update_ok.
Defined.

Lemma train_batch_zero_eval_interval_witness :
  let s := example_model [example_batch] in
  exists s1 out k s',
    passes zero_eval_interval_config (fun m => m) unit
      (fun _ => example_policy) (fun p _ => p)
      (Z.to_nat (ppo_epochs zero_eval_interval_config)) example_batch s
    = Done s1 /\
    mean_kl s1 = Some (out_mean_kl out) /\
    kl_update (kl_ctl s) (out_mean_kl out)
      (IZR (batch_size zero_eval_interval_config)) = Ok k /\
    train_batch zero_eval_interval_config (fun m => m) unit
      (fun _ => example_policy) (fun p _ => p) true example_batch s
    = Raised ZeroDivisionError s' /\
    kl_ctl s' = k /\
    iter_count s' = (iter_count s + ppo_epochs zero_eval_interval_config)%Z /\
    trace s'
    = trace s1
      ++ [EvKLUpdate (out_mean_kl out)
            (IZR (batch_size zero_eval_interval_config))].
Proof.
  apply (train_batch_zero_eval_interval zero_eval_interval_config
           (fun m => m) unit (fun _ => example_policy) (fun p _ => p) true
           example_batch (example_model [example_batch])).
  - reflexivity.
  - reflexivity.
  - cbn. lia.
  - intros i _. apply example_batch_loss_ok_any.
  - intros kl. apply example_model_update_ok.
Defined.

Lemma learn_runs_epochs_plus_one_witness :
  (forall s',
     learn example_config (fun m => m) unit (fun _ => example_policy)
       (fun p _ => p) true (fun _ _ _ _ => []) 1 (example_model [])
     <> OutOfFuel s') /\
  (forall s',
     learn example_config (fun m => m) unit (fun _ => example_policy)
       (fun p _ => p) true (fun _ _ _ _ => []) 1 (example_model [])
     = Done s' ->
     epoch s' = Z.max 0 (epochs example_config + 1)).
Proof.
  apply (learn_runs_epochs_plus_one example_config (fun m => m) unit
           (fun _ => example_policy) (fun p _ => p) true
           (fun _ _ _ _ => []) 1 (example_model [])).
  - cbn. lia.
  - cbn. lia.
Defined.

Lemma learn_empty_store_never_ends_witness :
  exists s',
    learn hundred_steps_config (fun m => m) unit (fun _ => example_policy)
      (fun p _ => p) true (fun _ _ _ _ => []) 5 (example_model [])
    = OutOfFuel s' /\
    iter_count s' = 0%Z /\ epoch s' = Z.of_nat 5.
Proof.
  apply (learn_empty_store_never_ends hundred_steps_config (fun m => m) unit
           (fun _ => example_policy) (fun p _ => p) true
           (fun _ _ _ _ => []) 5 (example_model [])).
  - cbn. lia.
  - intros p k n i. reflexivity.
  - reflexivity.
Defined.


(* ------------------------------------------------------------------ *)
(** ** The windows of the forward pass *)

Lemma el_map_rows (f : tensor1 -> tensor1) (m : tensor2) (b t : nat) :
  (b < length m)%nat -> el (map f m) b t = nth t (f (nth b m [])) 0.
Proof.
  intros Hb. unfold el.
  rewrite (nth_indep (map f m) [] (f [])) by (rewrite length_map; exact Hb).
  rewrite map_nth. reflexivity.
Qed.

Lemma map_rows_shape (f : tensor1 -> tensor1) (B T T' : nat) (m : tensor2) :
  has_shape B T m -> (forall r, length r = T -> length (f r) = T') ->
  has_shape B T' (map f m).
Proof.
  intros [Hl Hr] Hf. split; [rewrite length_map; exact Hl|].
  apply Forall_map. eapply Forall_impl; [|exact Hr].
  intros r H. apply Hf. exact H.
Qed.

(** X20.  With a prompt of at least one token, a forward pass that returns
    one log-probability per predicted token ([Lq + T - 1] columns) and one
    value per position ([Lq + T] columns) is cut to two windows of the
    batch's shape [B, T] that cover the same positions: entry [t] of either
    is column [Lq - 1 + t], the prediction made just before response token
    [t]. *)
Theorem forward_windows_aligned (policy : list (list Z) -> tensor2 * tensor2)
  (B Lq T : nat) (q resp : list (list Z)) (lp vp : tensor2) :
  (1 <= Lq)%nat -> (1 <= B)%nat -> (1 <= T)%nat ->
  has_shape B Lq q -> has_shape B T resp ->
  policy (map (fun p => fst p ++ snd p) (combine q resp)) = (lp, vp) ->
  has_shape B (Lq + T - 1) lp -> has_shape B (Lq + T) vp ->
  exists new_logprob new_value,
    forward policy q resp = Ok (new_logprob, new_value) /\
    has_shape B T new_logprob /\ has_shape B T new_value /\
    forall b t, (b < B)%nat -> (t < T)%nat ->
      el new_logprob b t = el lp b (Lq - 1 + t) /\
      el new_value b t = el vp b (Lq - 1 + t).
Proof.
  intros HLq HB HT Hq Hresp Hpol Hlp Hvp.
  unfold forward, cat1.
  rewrite (shape1_of_shape B T resp HB Hresp).
  destruct Hq as [Hql _]. pose proof Hresp as [Hrl _].
  rewrite Hql, Hrl, Nat.eqb_refl. cbn [bind]. rewrite Hpol.
  eexists. eexists. split; [reflexivity|].
  split; [|split].
  - apply (map_rows_shape _ B (Lq + T - 1) T lp Hlp).
    intros r Hr. unfold last_n.
    destruct (Nat.eqb_spec T 0) as [E|_]; [lia|].
    rewrite length_skipn, Hr. lia.
  - apply (map_rows_shape _ B (Lq + T) T vp Hvp).
    intros r Hr. unfold window_before_last.
    rewrite length_skipn, length_firstn, Hr. lia.
  - intros b t Hb Ht.
    pose proof (row_of_shape B _ lp b Hlp Hb) as Hrl'.
    pose proof (row_of_shape B _ vp b Hvp Hb) as Hrv.
    destruct Hlp as [Hlpl _]. destruct Hvp as [Hvpl _].
    pose proof Hb as Hbl. rewrite <- Hlpl in Hbl.
    pose proof Hb as Hbv. rewrite <- Hvpl in Hbv.
    rewrite (el_map_rows _ lp b t Hbl), (el_map_rows _ vp b t Hbv).
    unfold el. split.
    + unfold last_n. destruct (Nat.eqb_spec T 0) as [E|_]; [lia|].
      rewrite nth_skipn, Hrl'. f_equal. lia.
    + unfold window_before_last.
      rewrite nth_skipn, nth_firstn, Hrv.
      replace (Lq + T - (T + 1) + t)%nat with (Lq - 1 + t)%nat by lia.
      destruct (Nat.ltb_spec (Lq - 1 + t) (Lq + T - 1)); [reflexivity | lia].
Qed.

Lemma forward_windows_aligned_witness :
  exists new_logprob new_value,
    forward example_policy [[1%Z]] [[7%Z]] = Ok (new_logprob, new_value) /\
    has_shape 1 1 new_logprob /\ has_shape 1 1 new_value /\
    forall b t, (b < 1)%nat -> (t < 1)%nat ->
      el new_logprob b t = el [[0]] b (1 - 1 + t) /\
      el new_value b t = el [[0; 0]] b (1 - 1 + t).
Proof.
  apply (forward_windows_aligned example_policy 1 1 1 [[1%Z]] [[7%Z]]
           [[0]] [[0; 0]]); try lia; try reflexivity;
    (split; [reflexivity | repeat constructor]).
Defined.

Lemma bcast2_row_mismatch (f : R -> R -> R) (B Tm Tn : nat) (m n : tensor2) :
  (1 <= B)%nat -> has_shape B Tm m -> has_shape B Tn n ->
  Tm <> Tn -> (2 <= Tm)%nat -> (2 <= Tn)%nat ->
  bcast2 f m n = Err RuntimeError.
Proof.
  intros HB [Hml Hmr] [Hnl Hnr] Hne H2m H2n.
  destruct m as [|r m]; [simpl in Hml; lia|].
  destruct n as [|r' n]; [simpl in Hnl; lia|].
  assert (Hlen : length (r :: m) = length (r' :: n))
    by (etransitivity; [exact Hml | symmetry; exact Hnl]).
  assert (Hr : length r = Tm) by (inversion Hmr; assumption).
  assert (Hr' : length r' = Tn) by (inversion Hnr; assumption).
  rewrite <- Hr in Hne, H2m. rewrite <- Hr' in Hne, H2n.
  unfold bcast2, bcast.
  replace (Nat.eqb (length (r :: m)) (length (r' :: n))) with true
    by (symmetry; apply Nat.eqb_eq; exact Hlen).
  cbn [combine mapM fst snd].
  assert (Hrow : bcast1 f r r' = Err RuntimeError).
  { unfold bcast1, bcast.
    replace (Nat.eqb (length r) (length r')) with false
      by (symmetry; apply Nat.eqb_neq; exact Hne).
    destruct r as [|x [|x' r]]; simpl in H2m; try lia.
    destruct r' as [|y [|y' r']]; simpl in H2n; try lia.
    reflexivity. }
  rewrite Hrow. reflexivity.
Qed.

(** X21.  With an empty prompt the value window has one column less than
    the response (the slice [-gen_len-1:-1] of [gen_len] columns), so for
    responses of three or more tokens [loss] raises on the shape mismatch
    in the value clipping. *)
Theorem loss_empty_prompt (config : Config) (whiten : tensor2 -> tensor2)
  (policy : list (list Z) -> tensor2 * tensor2) (B T : nat)
  (q resp : list (list Z)) (old_logprob V Rw lp vp : tensor2) :
  (1 <= B)%nat -> (3 <= T)%nat ->
  has_shape B 0 q -> has_shape B T resp ->
  has_shape B T V -> has_shape B T Rw ->
  policy (map (fun p => fst p ++ snd p) (combine q resp)) = (lp, vp) ->
  has_shape B T vp ->
  exists new_logprob new_value,
    forward policy q resp = Ok (new_logprob, new_value) /\
    has_shape B (T - 1) new_value /\
    loss config whiten policy q resp old_logprob V Rw = Err RuntimeError.
Proof.
  intros HB HT Hq Hresp HV HR Hpol Hvp.
  assert (Hfwd : forward policy q resp
                 = Ok (map (last_n T) lp, map (window_before_last T) vp)).
  { unfold forward, cat1. rewrite (shape1_of_shape B T resp HB Hresp).
    destruct Hq as [Hql _]. destruct Hresp as [Hrl _].
    rewrite Hql, Hrl, Nat.eqb_refl. cbn [bind]. rewrite Hpol. reflexivity. }
  assert (Hshape : has_shape B (T - 1) (map (window_before_last T) vp)).
  { apply (map_rows_shape _ B T (T - 1) vp Hvp).
    intros r Hr. unfold window_before_last.
    rewrite length_skipn, length_firstn, Hr. lia. }
  eexists. eexists. split; [exact Hfwd|]. split; [exact Hshape|].
  unfold loss. rewrite (gae_spec_ok config B T) by (assumption || lia).
  cbn [bind]. rewrite Hfwd. cbn [bind].
  unfold value_loss, clip_by_value.
  rewrite (bcast2_row_mismatch Rmin B (T - 1) T); try assumption; try lia.
  - reflexivity.
  - apply (map_rows_shape _ B T T V HV).
    intros r Hr. rewrite length_map. exact Hr.
Qed.

Lemma loss_empty_prompt_witness :
  exists new_logprob new_value,
    forward (fun _ => ([[0; 0]], [[0; 0; 0]])) [[]] [[7%Z; 8%Z; 9%Z]]
    = Ok (new_logprob, new_value) /\
    has_shape 1 (3 - 1) new_value /\
    loss example_config (fun m => m) (fun _ => ([[0; 0]], [[0; 0; 0]]))
      [[]] [[7%Z; 8%Z; 9%Z]] [[0; 0; 0]] [[1; 1; 1]] [[0; 0; 0]]
    = Err RuntimeError.
Proof.
  apply (loss_empty_prompt example_config (fun m => m)
           (fun _ => ([[0; 0]], [[0; 0; 0]])) 1 3
           [[]] [[7%Z; 8%Z; 9%Z]] [[0; 0; 0]] [[1; 1; 1]] [[0; 0; 0]]
           [[0; 0]] [[0; 0; 0]]); try lia; try reflexivity;
    (split; [reflexivity | repeat constructor]).
Defined.

(* ------------------------------------------------------------------ *)
(** ** The coefficient during training *)

Lemma adaptive_update_nonnegative (c : AdaptiveKLController.t)
  (current n_steps : R) :
  0 <= AdaptiveKLController.value c ->
  AdaptiveKLController.target c <> 0 ->
  0 < AdaptiveKLController.horizon c ->
  0 <= n_steps ->
  0.2 * n_steps <= AdaptiveKLController.horizon c ->
  exists c',
    AdaptiveKLController.update c current n_steps = Ok c' /\
    0 <= AdaptiveKLController.value c' /\
    AdaptiveKLController.target c' = AdaptiveKLController.target c /\
    AdaptiveKLController.horizon c' = AdaptiveKLController.horizon c.
Proof.
  intros Hv Ht Hh Hn Hsmall.
  rewrite adaptive_update_value by lra.
  eexists. split; [reflexivity|].
  cbn [AdaptiveKLController.value AdaptiveKLController.target
       AdaptiveKLController.horizon].
  split; [|split; reflexivity].
  set (x := current / AdaptiveKLController.target c - 1).
  destruct (np_clip_bounds x) as ((Hlo & Hhi) & _).
  set (e := AdaptiveKLController.np_clip x (-0.2) 0.2) in *.
  assert (Hinv : 0 < / AdaptiveKLController.horizon c)
    by (apply Rinv_0_lt_compat; exact Hh).
  assert (Hq0 : 0 <= n_steps / AdaptiveKLController.horizon c)
    by (unfold Rdiv; apply Rmult_le_pos; lra).
  assert (Hq1 : 0.2 * (n_steps / AdaptiveKLController.horizon c) <= 1).
  { replace (0.2 * (n_steps / AdaptiveKLController.horizon c))
      with ((0.2 * n_steps) * / AdaptiveKLController.horizon c)
      by (unfold Rdiv; ring).
    replace 1 with (AdaptiveKLController.horizon c
                    * / AdaptiveKLController.horizon c) by (field; lra).
    apply Rmult_le_compat_r; lra. }
  replace (e * n_steps / AdaptiveKLController.horizon c)
    with (e * (n_steps / AdaptiveKLController.horizon c))
    by (unfold Rdiv; ring).
  set (q := n_steps / AdaptiveKLController.horizon c) in *.
  assert (0 <= (e + 0.2) * q) by (apply Rmult_le_pos; lra).
  apply Rmult_le_pos; lra.
Qed.

(** X22.  When the controller is Adaptive with a non-negative coefficient,
    a non-zero target, [batch_size >= 0] and [0.2 * batch_size < horizon],
    no update made by [learn] turns the coefficient negative: it is
    non-negative in whatever state [learn] ends. *)
Theorem learn_keeps_coefficient_nonnegative (config : Config)
  (whiten : tensor2 -> tensor2) (Params : Type)
  (policy_of : Params -> list (list Z) -> tensor2 * tensor2)
  (optimise : Params -> Batch -> Params) (is_main_process : bool)
  (make_experience : Params -> R -> Z -> Z -> list Batch)
  (fuel : nat) (s : Model Params) (c : AdaptiveKLController.t) :
  kl_ctl s = Adaptive c ->
  0 <= AdaptiveKLController.value c ->
  AdaptiveKLController.target c <> 0 ->
  (0 <= batch_size config)%Z ->
  0 < AdaptiveKLController.horizon c ->
  0.2 * IZR (batch_size config) < AdaptiveKLController.horizon c ->
  0 <= kl_value
         (kl_ctl (final (learn config whiten Params policy_of optimise
                           is_main_process make_experience fuel s))).
Proof.
  intros Hs Hv Ht Hb Hh Hsmall.
  assert (Hn : 0 <= IZR (batch_size config)) by (apply IZR_le; exact Hb).
  set (P := fun s' : Model Params =>
              exists c',
                kl_ctl s' = Adaptive c' /\
                0 <= AdaptiveKLController.value c' /\
                AdaptiveKLController.target c'
                = AdaptiveKLController.target c /\
                AdaptiveKLController.horizon c'
                = AdaptiveKLController.horizon c).
  assert (H : P (final (learn config whiten Params policy_of optimise
                          is_main_process make_experience fuel s))).
  { unfold learn. apply learn_loop_invariant.
    - intros b s1 H1. unfold optimization_pass. cbn [emit params].
      destruct (batch_loss config whiten Params policy_of b (params s1));
        [|split_mean_kl]; exact H1.
    - intros s1 (c1 & Hc1 & Hv1 & Ht1 & Hh1).
      unfold post_backward_callback.
      destruct (logs s1); [|exists c1; repeat split; assumption].
      destruct (mean_kl s1) as [kl|];
        [|exists c1; repeat split; assumption].
      cbn [emit kl_ctl]. rewrite Hc1. cbn [kl_update].
      destruct (adaptive_update_nonnegative c1 kl (IZR (batch_size config)))
        as (c2 & Hup & Hv2 & Ht2 & Hh2); try lra.
      rewrite Hup. cbn [bind].
      assert (HP : exists c', Adaptive c2 = Adaptive c' /\
                     0 <= AdaptiveKLController.value c' /\
                     AdaptiveKLController.target c'
                     = AdaptiveKLController.target c /\
                     AdaptiveKLController.horizon c'
                     = AdaptiveKLController.horizon c).
      { exists c2. rewrite Ht2, Hh2. repeat split; assumption. }
      repeat match goal with
             | |- context [if ?x then _ else _] => destruct x
             end; exact HP.
    - intros s1 H1. exact H1.
    - intros s1 H1. exact H1.
    - exists c. repeat split; assumption. }
  destruct H as (c' & Hc' & Hv' & _). rewrite Hc'. exact Hv'.
Qed.

Lemma learn_keeps_coefficient_nonnegative_witness :
  0 <= kl_value
         (kl_ctl (final (learn example_config (fun m => m) unit
                           (fun _ => example_policy) (fun p _ => p) true
                           (fun _ _ _ _ => []) 3
                           (example_model [example_batch])))).
Proof.
  apply (learn_keeps_coefficient_nonnegative example_config (fun m => m) unit
           (fun _ => example_policy) (fun p _ => p) true
           (fun _ _ _ _ => []) 3 (example_model [example_batch])
           {| AdaptiveKLController.value := 0.2;
              AdaptiveKLController.target := 6;
              AdaptiveKLController.horizon := 10000 |}).
  - reflexivity.
  - cbn. lra.
  - cbn. lra.
  - cbn. lia.
  - cbn. lra.
  - cbn. lra.
Defined.
